(** * RoCNN: the classifier of [src/cnn/model.py] and its checkpoint functions

    A shallow embedding of [RoCNN], [save_model] and [load_model].

    - Tensors are what torch keeps: a flat, row-major storage of 32-bit
      floats and a list of sizes.  A float is its bit pattern; the
      arithmetic on floats (add, multiply, max) is a parameter of the
      development, so nothing below depends on rounding.
    - Python objects that are mutated or aliased (parameter tensors, the
      buffers [ReLU(inplace=True)] overwrites, the view [Flatten] returns)
      live in a heap of storages; a tensor object is a handle into it.
    - [os], [torch.save], [torch.load], [input] and [print] act on a world
      with a file system (a map from paths to directories and regular
      files), console input and an event trace.
      Paths are compared as written (no normalisation, no drive letters);
      the separator is the backslash, as [save_model] assumes.
    - Python exceptions are the [Raise] results of a state-and-exception
      monad in which the effects made before the exception persist.
    - What torch does is taken from its documentation: the sizes and the
      elementwise definition of the layers (the order in which a backend
      adds the products is its own; here it is fixed), [torch.save] and
      [torch.load] as an exact copy of the values, and the strict
      [load_state_dict], which copies what it can before it raises. *)

From Stdlib Require Import ZArith Ascii String Lia.
From stdpp Require Import gmap strings list fin_maps.

Open Scope string_scope.
Open Scope list_scope.
Open Scope nat_scope.

(** ** Floats and tensor values *)

(** A [torch.float32] value, by its IEEE-754 bit pattern. *)
Definition f32 : Type := Z.

(** Bit patterns of [+0.0] and [-inf]. *)
Definition f32_zero : f32 := 0%Z.
Definition f32_neg_inf : f32 := 4286578688%Z.

(** The float operations the layers use.  Their results are whatever the
    numeric backend computes; the development only uses that they are
    functions. *)
Class Float32Arith : Type := {
  f32_add : f32 -> f32 -> f32;
  f32_mul : f32 -> f32 -> f32;
  f32_max : f32 -> f32 -> f32
}.

(** A tensor value: sizes and contiguous row-major data. *)
Record tensor : Type := Tensor { shape : list nat; data : list f32 }.

Definition numel (s : list nat) : nat := foldr Nat.mul 1 s.

Definition tensor_wf (t : tensor) : Prop := length (data t) = numel (shape t).

(** ** Exceptions *)

Inductive exn : Type :=
| ValueError                      (* str.rindex: substring not found *)
| FileNotFoundError
| FileExistsError
| NotADirectoryError
| IsADirectoryError
| UnpicklingError
| EOFError
| IndexError                      (* Flatten: dimension out of range *)
| ShapeError                      (* RuntimeError of a layer on a wrong shape *)
| StateDictError (missing unexpected mismatched : list string)
                                  (* RuntimeError of load_state_dict *)
| InvalidHandle.                  (* a handle outside the heap; no Python
                                     program can produce one *)

Inductive result (A : Type) : Type :=
| Ok (a : A)
| Raise (e : exn).
Arguments Ok {A} a.
Arguments Raise {A} e.

(** ** The layers as functions on tensor values (torch.nn.functional) *)

Section Layers.
Context `{Float32Arith}.

(** [accum n step acc]: run [step 0], ..., [step (n-1)] on an accumulator.
    The sums of a layer are taken in this one order; torch fixes none. *)
Definition accum (n : nat) (step : nat -> f32 -> f32) (acc : f32) : f32 :=
  foldl (fun a i => step i a) acc (seq 0 n).

(** Row-major data of a 4-d tensor given elementwise. *)
Definition tabulate4 (B C Hh W : nat) (f : nat -> nat -> nat -> nat -> f32)
  : list f32 :=
  flat_map (fun b =>
    flat_map (fun c =>
      flat_map (fun h => map (fun w => f b c h w) (seq 0 W)) (seq 0 Hh))
      (seq 0 C))
    (seq 0 B).

(** Row-major data of a 2-d tensor given elementwise. *)
Definition tabulate2 (R C : nat) (f : nat -> nat -> f32) : list f32 :=
  flat_map (fun r => map (fun c => f r c) (seq 0 C)) (seq 0 R).

(** Element (b,c,h,w) of 4-d data with sizes (_,C,Hh,W). *)
Definition at4 (C Hh W : nat) (d : list f32) (b c h w : nat) : f32 :=
  nth (((b * C + c) * Hh + h) * W + w) d f32_zero.

(** The same on the input padded by [p] cells of [fill] on each side. *)
Definition padded_at (fill : f32) (p C Hh W : nat) (d : list f32)
  (b c h w : nat) : f32 :=
  if (p <=? h) && (h <? Hh + p) && (p <=? w) && (w <? W + p)
  then at4 C Hh W d b c (h - p) (w - p)
  else fill.

(** Output size of a convolution or pooling window along one axis. *)
Definition out_size (n k s p : nat) : nat := (n + 2 * p - k) / s + 1.

(** torch.nn.Conv2d (dilation 1, groups 1, zero padding, bias), on a
    batch.  An unbatched (C, H, W) input, which torch also takes, is
    refused here: the properties below are about batches. *)
Definition conv2d (cin cout k s p : nat) (w b x : tensor) : result tensor :=
  match shape x with
  | [B; C; Hh; W] =>
      if negb (C =? cin) then Raise ShapeError
      else if s =? 0 then Raise ShapeError
      else if (Hh + 2 * p <? k) || (W + 2 * p <? k) then Raise ShapeError
      else
        let Ho := out_size Hh k s p in
        let Wo := out_size W k s p in
        Ok (Tensor [B; cout; Ho; Wo]
              (tabulate4 B cout Ho Wo (fun n o i j =>
                 accum cin (fun c =>
                   accum k (fun u =>
                     accum k (fun v acc =>
                       f32_add acc
                         (f32_mul (at4 cin k k (data w) o c u v)
                                  (padded_at f32_zero p C Hh W (data x)
                                     n c (i * s + u) (j * s + v))))))
                   (nth o (data b) f32_zero))))
  | _ => Raise ShapeError
  end.

(** torch.nn.MaxPool2d (dilation 1, ceil_mode False), on a batch, as
    [conv2d]. *)
Definition max_pool2d (k s p : nat) (x : tensor) : result tensor :=
  match shape x with
  | [B; C; Hh; W] =>
      if s =? 0 then Raise ShapeError
      else if k / 2 <? p then Raise ShapeError
      else if (Hh + 2 * p <? k) || (W + 2 * p <? k) then Raise ShapeError
      else
        let Ho := out_size Hh k s p in
        let Wo := out_size W k s p in
        Ok (Tensor [B; C; Ho; Wo]
              (tabulate4 B C Ho Wo (fun n c i j =>
                 accum k (fun u =>
                   accum k (fun v acc =>
                     f32_max acc
                       (padded_at f32_neg_inf p C Hh W (data x)
                          n c (i * s + u) (j * s + v))))
                   f32_neg_inf)))
  | _ => Raise ShapeError
  end.

(** torch.nn.ReLU, on the data. *)
Definition relu_data (d : list f32) : list f32 :=
  map (fun v => f32_max v f32_zero) d.

Definition relu (x : tensor) : tensor := Tensor (shape x) (relu_data (data x)).

(** Sizes after torch.nn.Flatten (start_dim 1, end_dim -1). *)
Definition flatten_shape (s : list nat) : result (list nat) :=
  match s with
  | b :: ((_ :: _) as rest) => Ok [b; numel rest]
  | _ => Raise IndexError
  end.

(** torch.nn.Linear with bias, on the last axis. *)
Definition linear (fin fout : nat) (w b x : tensor) : result tensor :=
  match rev (shape x) with
  | last :: rlead =>
      if negb (last =? fin) then Raise ShapeError
      else
        Ok (Tensor (rev rlead ++ [fout])
              (tabulate2 (numel (rev rlead)) fout (fun r o =>
                 accum fin (fun i acc =>
                   f32_add acc
                     (f32_mul (nth (r * fin + i) (data x) f32_zero)
                              (nth (o * fin + i) (data w) f32_zero)))
                   (nth o (data b) f32_zero))))
  | [] => Raise ShapeError
  end.

End Layers.

(** ** The world the program runs in *)

(** A tensor object: a storage of the heap (by index) seen under sizes.
    Two handles with one [stor] alias each other. *)
Record tref : Type := TRef { stor : nat; tshape : list nat }.

(** What a file holds: the pickle [torch.save] writes for a mapping from
    names to tensors, or anything else. *)
Inductive file_content : Type :=
| Pickled (sd : list (string * tensor))
| OtherBytes (bytes : string).

(** What stands at a path. *)
Inductive entry : Type :=
| Dir
| File (c : file_content).

(** What the program does to the outside, in order. *)
Inductive event : Type :=
| EvExists (p : string)      (* os.path.exists(p) *)
| EvMkdir (p : string)       (* a directory made by os.makedirs *)
| EvWrite (p : string)       (* a file written by torch.save *)
| EvRead (p : string)        (* a file opened for reading by torch.load *)
| EvInput (prompt : string)  (* input(prompt) *)
| EvPrint (line : string).   (* print(line) *)

Record world : Type := World {
  heap : list (list f32);            (* tensor storages *)
  entries : gmap string entry;       (* the file system *)
  stdin : list string;               (* the lines the console will give *)
  rng : nat -> f32;                  (* the i-th draw of torch's generator *)
  rng_pos : nat;                     (* draws made so far *)
  trace : list event                 (* events so far, oldest first *)
}.

Definition set_heap (h : list (list f32)) (w : world) : world :=
  World h (entries w) (stdin w) (rng w) (rng_pos w) (trace w).
Definition set_entries (f : gmap string entry) (w : world) : world :=
  World (heap w) f (stdin w) (rng w) (rng_pos w) (trace w).
Definition set_stdin (i : list string) (w : world) : world :=
  World (heap w) (entries w) i (rng w) (rng_pos w) (trace w).
Definition set_rng_pos (n : nat) (w : world) : world :=
  World (heap w) (entries w) (stdin w) (rng w) n (trace w).
Definition log (es : list event) (w : world) : world :=
  World (heap w) (entries w) (stdin w) (rng w) (rng_pos w) (trace w ++ es).

(** ** Computations: state and exceptions *)

Definition M (A : Type) : Type := world -> result A * world.

Definition ret {A} (a : A) : M A := fun w => (Ok a, w).
Definition raise {A} (e : exn) : M A := fun w => (Raise e, w).
Definition lift {A} (r : result A) : M A := fun w => (r, w).
Definition bind {A B} (c : M A) (k : A -> M B) : M B :=
  fun w => match c w with
           | (Ok a, w') => k a w'
           | (Raise e, w') => (Raise e, w')
           end.

Declare Scope py_scope.
Delimit Scope py_scope with py.
Notation "x <- c ;; k" := (bind c (fun x => k))
  (at level 100, c at next level, right associativity) : py_scope.
Notation "c ;; k" := (bind c (fun _ => k))
  (at level 100, right associativity) : py_scope.
Open Scope py_scope.

(** ** Heap operations *)

Definition read_tensor (t : tref) : M tensor := fun w =>
  match heap w !! stor t with
  | Some d => (Ok (Tensor (tshape t) d), w)
  | None => (Raise InvalidHandle, w)
  end.

(** A new tensor object with a storage of its own. *)
Definition alloc (v : tensor) : M tref := fun w =>
  (Ok (TRef (length (heap w)) (shape v)), set_heap (heap w ++ [data v]) w).

(** Overwrite the storage behind a handle (in-place operations, copy_). *)
Definition write_data (t : tref) (d : list f32) : M unit := fun w =>
  if stor t <? length (heap w)
  then (Ok tt, set_heap (<[stor t := d]> (heap w)) w)
  else (Raise InvalidHandle, w).

(** ** Strings and paths *)

Definition sep : ascii := "\"%char.
Definition dquote : string := String (ascii_of_nat 34) EmptyString.

Fixpoint rindex_from (c : ascii) (s : string) (i : nat) (last : option nat)
  : option nat :=
  match s with
  | EmptyString => last
  | String a s' =>
      rindex_from c s' (S i) (if Ascii.eqb a c then Some i else last)
  end.

(** [s.rindex(c)] for a one-character [c]: [None] is Python's ValueError. *)
Definition rindex (c : ascii) (s : string) : option nat :=
  rindex_from c s 0 None.

(** [s[:i]] *)
Definition prefix_to (i : nat) (s : string) : string := substring 0 i s.

Fixpoint sep_indices (s : string) (i : nat) : list nat :=
  match s with
  | EmptyString => []
  | String a s' =>
      (if Ascii.eqb a sep then [i] else []) ++ sep_indices s' (S i)
  end.

(** The directories above [name], outermost first, for a name whose
    directories are separated by backslashes, as in the paths of the
    docstrings ([SAVED_MODELS_PATH\mode\name\name_epoch_i.pth]).  The
    operating system splits a name at [/] as well: what is said below of
    the directories that are made is said of names without [/]
    ([no_slash]). *)
Definition ancestors (name : string) : list string :=
  filter (fun a => a <> EmptyString)
         (map (fun i => prefix_to i name) (sep_indices name 0)).

(** ** The operating system and the console *)

Definition is_dir (w : world) (p : string) : bool :=
  match entries w !! p with Some Dir => true | _ => false end.
Definition is_file (w : world) (p : string) : bool :=
  match entries w !! p with Some (File _) => true | _ => false end.
Definition is_entry (w : world) (p : string) : bool :=
  match entries w !! p with Some _ => true | None => false end.

(** os.path.exists *)
Definition path_exists (p : string) : M bool := fun w =>
  (Ok (is_entry w p), log [EvExists p] w).

(** The directories os.makedirs(name) has to make, outermost first. *)
Definition missing_dirs (w : world) (name : string) : list string :=
  List.filter (fun a => negb (is_entry w a)) (ancestors name ++ [name]).

Definition mkdirs (made : list string) (fs : gmap string entry)
  : gmap string entry :=
  foldr (fun a => <[a := Dir]>) fs made.

(** os.makedirs(name): makes [name] and the directories above it that are
    not there; fails when [name] is empty or exists, or when a regular
    file stands where a directory is needed. *)
Definition makedirs (name : string) : M unit := fun w =>
  if String.eqb name EmptyString then (Raise FileNotFoundError, w)
  else if is_entry w name then (Raise FileExistsError, w)
  else if existsb (is_file w) (ancestors name) then (Raise NotADirectoryError, w)
  else
    let made := missing_dirs w name in
    (Ok tt, log (map EvMkdir made) (set_entries (mkdirs made (entries w)) w)).

(** Can a file be opened for writing at [p]?  The directory of [p] is taken
    to be what precedes its last backslash, which it is for a name without
    [/] whose last part names a file ([plain]). *)
Definition open_for_write (p : string) : M unit := fun w =>
  if is_dir w p then (Raise IsADirectoryError, w)
  else match rindex sep p with
       | Some i =>
           if is_dir w (prefix_to i p) then (Ok tt, w)
           else (Raise FileNotFoundError, w)
       | None => (Ok tt, w)   (* directly in the working directory *)
       end.

Definition print (line : string) : M unit := fun w =>
  (Ok tt, log [EvPrint line] w).

Definition input (prompt : string) : M string := fun w =>
  match stdin w with
  | l :: rest => (Ok l, set_stdin rest (log [EvInput prompt] w))
  | [] => (Raise EOFError, log [EvInput prompt] w)
  end.

(** ** The layers as objects *)

(** The next [n] draws of the generator [g] from position [pos]. *)
Definition draw (g : nat -> f32) (pos n : nat) : list f32 :=
  map (fun i => g (pos + i)) (seq 0 n).

(** A fresh [torch.nn.Parameter] of the given sizes, filled from the
    generator. *)
Definition new_parameter (s : list nat) : M tref := fun w =>
  (Ok (TRef (length (heap w)) s),
   set_rng_pos (rng_pos w + numel s)
     (set_heap (heap w ++ [draw (rng w) (rng_pos w) (numel s)]) w)).

Module Conv2d.
Record t : Type := Make {
  in_channels : nat; out_channels : nat;
  kernel_size : nat; stride : nat; padding : nat;
  weight : tref; bias : tref
}.
End Conv2d.

Module MaxPool2d.
Record t : Type := Make { kernel_size : nat; stride : nat; padding : nat }.
End MaxPool2d.

Module Linear.
Record t : Type := Make {
  in_features : nat; out_features : nat;
  weight : tref; bias : tref
}.
End Linear.

(** torch.nn.Conv2d(in_channels, out_channels, kernel_size, stride, padding) *)
Definition Conv2d_init (cin cout k s p : nat) : M Conv2d.t :=
  w <- new_parameter [cout; cin; k; k] ;;
  b <- new_parameter [cout] ;;
  ret (Conv2d.Make cin cout k s p w b).

(** torch.nn.Linear(in_features, out_features) *)
Definition Linear_init (fin fout : nat) : M Linear.t :=
  w <- new_parameter [fout; fin] ;;
  b <- new_parameter [fout] ;;
  ret (Linear.Make fin fout w b).

(** The attributes of a [RoCNN].  [cv1], [cv2], [cv3], [fc1] and [fc2] are
    [Sequential(layer, ReLU(inplace=True))]; the record keeps the layer,
    which alone has state. *)
Record RoCNN : Type := MakeRoCNN {
  cv1 : Conv2d.t; cv2 : Conv2d.t; cv3 : Conv2d.t;
  mp1 : MaxPool2d.t; mp2 : MaxPool2d.t;
  fc1 : Linear.t; fc2 : Linear.t; fc3 : Linear.t
}.

(** RoCNN.__init__ *)
Definition RoCNN_init : M RoCNN :=
  c1 <- Conv2d_init 6 32 4 2 0 ;;
  c2 <- Conv2d_init 32 64 3 1 1 ;;
  c3 <- Conv2d_init 64 64 3 1 1 ;;
  let p1 := MaxPool2d.Make 3 2 0 in
  let p2 := MaxPool2d.Make 3 2 0 in
  l1 <- Linear_init (7 * 7 * 64) 512 ;;
  l2 <- Linear_init 512 64 ;;
  l3 <- Linear_init 64 1 ;;
  ret (MakeRoCNN c1 c2 c3 p1 p2 l1 l2 l3).

Section Forward.
Context `{Float32Arith}.

Definition Conv2d_forward (L : Conv2d.t) (x : tref) : M tref :=
  xv <- read_tensor x ;;
  wv <- read_tensor (Conv2d.weight L) ;;
  bv <- read_tensor (Conv2d.bias L) ;;
  y <- lift (conv2d (Conv2d.in_channels L) (Conv2d.out_channels L)
               (Conv2d.kernel_size L) (Conv2d.stride L) (Conv2d.padding L)
               wv bv xv) ;;
  alloc y.

(** ReLU(inplace=True): overwrites its argument and returns it. *)
Definition ReLU_inplace (x : tref) : M tref :=
  xv <- read_tensor x ;;
  write_data x (relu_data (data xv)) ;;
  ret x.

Definition MaxPool2d_forward (P : MaxPool2d.t) (x : tref) : M tref :=
  xv <- read_tensor x ;;
  y <- lift (max_pool2d (MaxPool2d.kernel_size P) (MaxPool2d.stride P)
               (MaxPool2d.padding P) xv) ;;
  alloc y.

(** Flatten returns a view: the same storage under other sizes. *)
Definition Flatten_forward (x : tref) : M tref :=
  s <- lift (flatten_shape (tshape x)) ;;
  ret (TRef (stor x) s).

Definition Linear_forward (L : Linear.t) (x : tref) : M tref :=
  xv <- read_tensor x ;;
  wv <- read_tensor (Linear.weight L) ;;
  bv <- read_tensor (Linear.bias L) ;;
  y <- lift (linear (Linear.in_features L) (Linear.out_features L) wv bv xv) ;;
  alloc y.

(** Sequential(Conv2d, ReLU(inplace=True)) *)
Definition conv_relu (L : Conv2d.t) (x : tref) : M tref :=
  y <- Conv2d_forward L x ;; ReLU_inplace y.

(** Sequential(Linear, ReLU(inplace=True)) *)
Definition linear_relu (L : Linear.t) (x : tref) : M tref :=
  y <- Linear_forward L x ;; ReLU_inplace y.

(** RoCNN.forward *)
Definition forward (self : RoCNN) (x : tref) : M tref :=
  x <- conv_relu (cv1 self) x ;;
  x <- MaxPool2d_forward (mp1 self) x ;;
  x <- conv_relu (cv2 self) x ;;
  x <- conv_relu (cv3 self) x ;;
  x <- MaxPool2d_forward (mp2 self) x ;;
  x <- Flatten_forward x ;;
  x <- linear_relu (fc1 self) x ;;
  x <- linear_relu (fc2 self) x ;;
  x <- Linear_forward (fc3 self) x ;;
  ret x.

(** The nine stages of [forward], in order. *)
Definition stages (self : RoCNN) : list (tref -> M tref) :=
  [ conv_relu (cv1 self); MaxPool2d_forward (mp1 self);
    conv_relu (cv2 self); conv_relu (cv3 self);
    MaxPool2d_forward (mp2 self); Flatten_forward;
    linear_relu (fc1 self); linear_relu (fc2 self);
    Linear_forward (fc3 self) ].

(** Run stages one after the other, keeping the sizes of each result. *)
Fixpoint run_stages (fs : list (tref -> M tref)) (x : tref)
  : M (tref * list (list nat)) :=
  match fs with
  | [] => ret (x, [])
  | f :: fs' =>
      y <- f x ;;
      r <- run_stages fs' y ;;
      ret (fst r, tshape y :: snd r)
  end.

End Forward.

(** ** Checkpoints *)

(** Module.state_dict(keep_vars=True): the parameters themselves under
    their names, in declaration order.  [RoCNN] has no buffers. *)
Definition state_dict (m : RoCNN) : list (string * tref) :=
  [ ("cv1.0.weight", Conv2d.weight (cv1 m)); ("cv1.0.bias", Conv2d.bias (cv1 m));
    ("cv2.0.weight", Conv2d.weight (cv2 m)); ("cv2.0.bias", Conv2d.bias (cv2 m));
    ("cv3.0.weight", Conv2d.weight (cv3 m)); ("cv3.0.bias", Conv2d.bias (cv3 m));
    ("fc1.0.weight", Linear.weight (fc1 m)); ("fc1.0.bias", Linear.bias (fc1 m));
    ("fc2.0.weight", Linear.weight (fc2 m)); ("fc2.0.bias", Linear.bias (fc2 m));
    ("fc3.weight", Linear.weight (fc3 m)); ("fc3.bias", Linear.bias (fc3 m)) ].

(** The sizes of the parameters, in declaration order. *)
Definition param_shapes : list (list nat) :=
  [ [32; 6; 4; 4]; [32]; [64; 32; 3; 3]; [64]; [64; 64; 3; 3]; [64];
    [512; 3136]; [512]; [64; 512]; [64]; [1; 64]; [1] ].

(** The names of the parameters, in declaration order. *)
Definition param_names : list string :=
  [ "cv1.0.weight"; "cv1.0.bias"; "cv2.0.weight"; "cv2.0.bias";
    "cv3.0.weight"; "cv3.0.bias"; "fc1.0.weight"; "fc1.0.bias";
    "fc2.0.weight"; "fc2.0.bias"; "fc3.weight"; "fc3.bias" ].

(** The current values of named tensors, as pickling reads them. *)
Fixpoint snapshot (obj : list (string * tref)) : M (list (string * tensor)) :=
  match obj with
  | [] => ret []
  | (k, t) :: rest =>
      v <- read_tensor t ;;
      vs <- snapshot rest ;;
      ret ((k, v) :: vs)
  end.

(** torch.save(obj, path) *)
Definition torch_save (obj : list (string * tref)) (path : string) : M unit :=
  open_for_write path ;;
  sd <- snapshot obj ;;
  fun w => (Ok tt, log [EvWrite path]
                     (set_entries (<[path := File (Pickled sd)]> (entries w)) w)).

(** torch.load(path) *)
Definition torch_load (path : string) : M (list (string * tensor)) := fun w =>
  match entries w !! path with
  | Some (File (Pickled sd)) => (Ok sd, log [EvRead path] w)
  | Some (File (OtherBytes _)) => (Raise UnpicklingError, log [EvRead path] w)
  | Some Dir => (Raise IsADirectoryError, w)
  | None => (Raise FileNotFoundError, w)
  end.

(** [d.get(k)] on a mapping kept as a list of items. *)
Fixpoint dict_get {A} (k : string) (d : list (string * A)) : option A :=
  match d with
  | [] => None
  | (k', v) :: rest => if String.eqb k k' then Some v else dict_get k rest
  end.

Definition keys {A} (d : list (string * A)) : list string := map fst d.

Definition mem (k : string) (ks : list string) : bool := existsb (String.eqb k) ks.

(** The loop of load_state_dict over the module's own parameters: a
    parameter found with the right sizes is copied into at once
    (param.copy_), a key not found is recorded as missing, a tensor of
    other sizes as mismatched.  Returns (missing, mismatched). *)
Fixpoint load_params (own : list (string * tref)) (sd : list (string * tensor))
  : M (list string * list string) :=
  match own with
  | [] => ret ([], [])
  | (k, p) :: rest =>
      here <- match dict_get k sd with
              | None => ret ([k], [])
              | Some v =>
                  if bool_decide (shape v = tshape p)
                  then (write_data p (data v) ;; ret ([], []))
                  else ret ([], [k])
              end ;;
      more <- load_params rest sd ;;
      ret (fst here ++ fst more, snd here ++ snd more)
  end.

(** Module.load_state_dict(sd), strict. *)
Definition load_state_dict (m : RoCNN) (sd : list (string * tensor)) : M unit :=
  r <- load_params (state_dict m) sd ;;
  let missing := fst r in
  let mismatched := snd r in
  let unexpected :=
    List.filter (fun k => negb (mem k (keys (state_dict m)))) (keys sd) in
  match missing, unexpected, mismatched with
  | [], [], [] => ret tt
  | _, _, _ => raise (StateDictError missing unexpected mismatched)
  end.

(** save_model(model, path, overwrite=False) *)
Definition save_model (model : RoCNN) (path : string) (overwrite : bool)
  : M unit :=
  let save :=
    (torch_save (state_dict model) path ;;
     print ("model saved to " +:+ dquote +:+ path +:+ dquote +:+ ".")) in
  i <- lift (match rindex sep path with
             | Some i => Ok i
             | None => Raise ValueError
             end) ;;
  let folder_path := prefix_to i path in
  e <- path_exists folder_path ;;
  if negb e then
    (makedirs folder_path ;;
     print ("created new folder at " +:+ dquote +:+ folder_path +:+ dquote) ;;
     save)
  else
    (e' <- path_exists path ;;
     if e' then (if negb overwrite then ret tt else save)
     else save).

(** load_model(path) *)
Definition load_model (path : string) : M RoCNN :=
  e <- path_exists path ;;
  create <- (if negb e then
               (input_value <- input ("model not found at path " +:+ dquote +:+
                                      path +:+ dquote +:+
                                      ", create new one? (y/n) ") ;;
                ret (mem input_value ["y"; "Y"]))
             else ret false) ;;
  model <- RoCNN_init ;;
  if create then (print "new model created" ;; ret model)
  else
    (sd <- torch_load path ;;
     load_state_dict model sd ;;
     print ("model loaded from " +:+ dquote +:+ path +:+ dquote) ;;
     ret model).

(** * The vocabulary of the properties *)

Section Vocabulary.
Context `{Float32Arith}.

(** The handle [t] denotes the value [v] in [w]. *)
Definition holds (w : world) (t : tref) (v : tensor) : Prop :=
  heap w !! stor t = Some (data v) /\ tshape t = shape v.

(** [w] with new storages appended; nothing else differs. *)
Definition grow (w : world) (h : list (list f32)) : world :=
  set_heap (heap w ++ h) w.

(** Sequencing of results. *)
Definition rbind {A B} (r : result A) (k : A -> result B) : result B :=
  match r with Ok a => k a | Raise e => Raise e end.

(** In every world that extends [w0] by new storages, the stage [f] only
    appends storages, and returns a handle to [g] of its argument's value
    (or raises what [g] raises). *)
Definition refines (f : tref -> M tref) (g : tensor -> result tensor)
  (w0 : world) : Prop :=
  forall h x xv, holds (grow w0 h) x xv ->
    exists r h', f x (grow w0 h) = (r, grow w0 (h ++ h'))
      /\ match g xv, r with
         | Ok y, Ok t => holds (grow w0 (h ++ h')) t y
         | Raise e, Raise e' => e = e'
         | _, _ => False
         end.

(** The layers on values, with the hyperparameters of a layer object. *)
Definition conv2d_of (L : Conv2d.t) (wv bv xv : tensor) : result tensor :=
  conv2d (Conv2d.in_channels L) (Conv2d.out_channels L) (Conv2d.kernel_size L)
         (Conv2d.stride L) (Conv2d.padding L) wv bv xv.

Definition conv_relu_fn (L : Conv2d.t) (wv bv xv : tensor) : result tensor :=
  rbind (conv2d_of L wv bv xv) (fun y => Ok (relu y)).

Definition max_pool2d_of (P : MaxPool2d.t) (xv : tensor) : result tensor :=
  max_pool2d (MaxPool2d.kernel_size P) (MaxPool2d.stride P)
             (MaxPool2d.padding P) xv.

Definition flatten (xv : tensor) : result tensor :=
  rbind (flatten_shape (shape xv)) (fun s => Ok (Tensor s (data xv))).

Definition linear_of (L : Linear.t) (wv bv xv : tensor) : result tensor :=
  linear (Linear.in_features L) (Linear.out_features L) wv bv xv.

Definition linear_relu_fn (L : Linear.t) (wv bv xv : tensor) : result tensor :=
  rbind (linear_of L wv bv xv) (fun y => Ok (relu y)).

(** [run_stages] on values. *)
Fixpoint run_stages_fn (gs : list (tensor -> result tensor)) (xv : tensor)
  : result (tensor * list (list nat)) :=
  match gs with
  | [] => Ok (xv, [])
  | g :: gs' =>
      rbind (g xv) (fun y =>
      rbind (run_stages_fn gs' y) (fun r =>
      Ok (fst r, shape y :: snd r)))
  end.

(** The stages of [forward] on values; [pv] gives the value of each
    parameter. *)
Definition stages_fn (self : RoCNN) (pv : tref -> tensor)
  : list (tensor -> result tensor) :=
  [ conv_relu_fn (cv1 self) (pv (Conv2d.weight (cv1 self)))
                            (pv (Conv2d.bias (cv1 self)));
    max_pool2d_of (mp1 self);
    conv_relu_fn (cv2 self) (pv (Conv2d.weight (cv2 self)))
                            (pv (Conv2d.bias (cv2 self)));
    conv_relu_fn (cv3 self) (pv (Conv2d.weight (cv3 self)))
                            (pv (Conv2d.bias (cv3 self)));
    max_pool2d_of (mp2 self);
    flatten;
    linear_relu_fn (fc1 self) (pv (Linear.weight (fc1 self)))
                              (pv (Linear.bias (fc1 self)));
    linear_relu_fn (fc2 self) (pv (Linear.weight (fc2 self)))
                              (pv (Linear.bias (fc2 self)));
    linear_of (fc3 self) (pv (Linear.weight (fc3 self)))
                         (pv (Linear.bias (fc3 self))) ].

(** [forward] as a function of the parameter values and the input value. *)
Definition forward_fn (self : RoCNN) (pv : tref -> tensor) (xv : tensor)
  : result tensor :=
  rbind (run_stages_fn (stages_fn self pv) xv) (fun r => Ok (fst r)).

(** Every parameter of [m] denotes its value under [pv]. *)
Definition has_params (w : world) (m : RoCNN) (pv : tref -> tensor) : Prop :=
  Forall (fun kt => holds w (snd kt) (pv (snd kt))) (state_dict m).

(** The hyperparameters of a layer. *)
Definition conv_hyper (L : Conv2d.t) : nat * nat * nat * nat * nat :=
  (Conv2d.in_channels L, Conv2d.out_channels L, Conv2d.kernel_size L,
   Conv2d.stride L, Conv2d.padding L).

Definition lin_hyper (L : Linear.t) : nat * nat :=
  (Linear.in_features L, Linear.out_features L).

(** The hyperparameters [__init__] gives every [RoCNN]. *)
Definition arch_ok (m : RoCNN) : Prop :=
  conv_hyper (cv1 m) = (6, 32, 4, 2, 0)
  /\ mp1 m = MaxPool2d.Make 3 2 0
  /\ conv_hyper (cv2 m) = (32, 64, 3, 1, 1)
  /\ conv_hyper (cv3 m) = (64, 64, 3, 1, 1)
  /\ mp2 m = MaxPool2d.Make 3 2 0
  /\ lin_hyper (fc1 m) = (3136, 512)
  /\ lin_hyper (fc2 m) = (512, 64)
  /\ lin_hyper (fc3 m) = (64, 1).

(** A parameter: a handle of the given sizes on a storage of that many
    floats. *)
Definition param_ok (w : world) (t : tref) (s : list nat) : Prop :=
  tshape t = s /\ exists d, heap w !! stor t = Some d /\ length d = numel s.

(** The parameters of a layer have the sizes its hyperparameters give. *)
Definition conv_params_ok (w : world) (L : Conv2d.t) : Prop :=
  param_ok w (Conv2d.weight L)
    [Conv2d.out_channels L; Conv2d.in_channels L;
     Conv2d.kernel_size L; Conv2d.kernel_size L]
  /\ param_ok w (Conv2d.bias L) [Conv2d.out_channels L].

Definition lin_params_ok (w : world) (L : Linear.t) : Prop :=
  param_ok w (Linear.weight L) [Linear.out_features L; Linear.in_features L]
  /\ param_ok w (Linear.bias L) [Linear.out_features L].

Definition params_ok (w : world) (m : RoCNN) : Prop :=
  conv_params_ok w (cv1 m) /\ conv_params_ok w (cv2 m)
  /\ conv_params_ok w (cv3 m)
  /\ lin_params_ok w (fc1 m) /\ lin_params_ok w (fc2 m)
  /\ lin_params_ok w (fc3 m).

(** A [RoCNN] as the program can have one: built by [__init__], its
    parameters possibly overwritten with other values since. *)
Definition model_ok (w : world) (m : RoCNN) : Prop :=
  arch_ok m /\ params_ok w m.

(** The value a handle denotes (no data when the handle is invalid). *)
Definition value_of (w : world) (t : tref) : tensor :=
  Tensor (tshape t) (default [] (heap w !! stor t)).

(** Every parameter has its declared sizes. *)
Definition shaped (w : world) (m : RoCNN) : Prop :=
  Forall2 (fun kt s => param_ok w (snd kt) s) (state_dict m) param_shapes.

(** The value [forward] returns: what its result handle denotes when it
    returns. *)
Definition forward_value (m : RoCNN) (x : tref) (w : world)
  : result tensor :=
  match forward m x w with
  | (Ok t, w') => fst (read_tensor t w')
  | (Raise e, _) => Raise e
  end.

(** The sizes after each stage, for a batch of [B] inputs. *)
Definition stage_shapes (B : nat) : list (list nat) :=
  [ [B; 32; 31; 31]; [B; 32; 15; 15]; [B; 64; 15; 15]; [B; 64; 15; 15];
    [B; 64; 7; 7]; [B; 3136]; [B; 512]; [B; 64]; [B; 1] ].

(** The items of a mapping from names to tensor objects, by value. *)
Definition values_of (pv : tref -> tensor) (obj : list (string * tref))
  : list (string * tensor) :=
  map (fun kt => (fst kt, pv (snd kt))) obj.


(** The lines [save_model] and [load_model] print. *)
Definition saved_notice (path : string) : string :=
  "model saved to " +:+ dquote +:+ path +:+ dquote +:+ ".".

Definition created_notice (folder : string) : string :=
  "created new folder at " +:+ dquote +:+ folder +:+ dquote.

(** The pickle of a model's parameters. *)
Definition checkpoint_of (pv : tref -> tensor) (model : RoCNN) : entry :=
  File (Pickled (values_of pv (state_dict model))).

(** Storages drawn one after the other from the generator. *)
Fixpoint cells_from (g : nat -> f32) (pos : nat) (shapes : list (list nat))
  : list (list f32) :=
  match shapes with
  | [] => []
  | s :: rest => draw g pos (numel s) :: cells_from g (pos + numel s) rest
  end.

Definition init_cells (g : nat -> f32) (pos : nat) : list (list f32) :=
  cells_from g pos param_shapes.

Definition pos_after (pos : nat) (shapes : list (list nat)) : nat :=
  foldl (fun p s => p + numel s) pos shapes.

(** The model [__init__] builds when the heap has [base] storages. *)
Definition init_model (base : nat) : RoCNN :=
  MakeRoCNN
    (Conv2d.Make 6 32 4 2 0 (TRef (base + 0) [32; 6; 4; 4]) (TRef (base + 1) [32]))
    (Conv2d.Make 32 64 3 1 1 (TRef (base + 2) [64; 32; 3; 3]) (TRef (base + 3) [64]))
    (Conv2d.Make 64 64 3 1 1 (TRef (base + 4) [64; 64; 3; 3]) (TRef (base + 5) [64]))
    (MaxPool2d.Make 3 2 0) (MaxPool2d.Make 3 2 0)
    (Linear.Make 3136 512 (TRef (base + 6) [512; 3136]) (TRef (base + 7) [512]))
    (Linear.Make 512 64 (TRef (base + 8) [64; 512]) (TRef (base + 9) [64]))
    (Linear.Make 64 1 (TRef (base + 10) [1; 64]) (TRef (base + 11) [1])).

(** The storages behind named tensors. *)
Definition stors (own : list (string * tref)) : list nat :=
  map (fun kt => stor (snd kt)) own.

Definition prompt_of (path : string) : string :=
  "model not found at path " +:+ dquote +:+ path +:+ dquote +:+
  ", create new one? (y/n) ".

Definition loaded_notice (path : string) : string :=
  "model loaded from " +:+ dquote +:+ path +:+ dquote.

(** The world after [RoCNN()] has run in [w]. *)
Definition after_init (w : world) : world :=
  set_rng_pos (pos_after (rng_pos w) param_shapes)
    (grow w (init_cells (rng w) (rng_pos w))).

End Vocabulary.

(** Split a [Forall2] over explicit lists into its components. *)
Ltac split_Forall2 :=
  repeat match goal with
         | Hx : Forall2 _ (_ :: _) (_ :: _) |- _ =>
             apply Forall2_cons in Hx; destruct Hx as [? Hx]
         | Hx : Forall2 _ [] [] |- _ => clear Hx
         end.

(** Turn [arch_ok] into one equation per hyperparameter. *)
Ltac arch_equations Ha :=
  let A1 := fresh in let A2 := fresh in let A3 := fresh in let A4 := fresh in
  let A5 := fresh in let A6 := fresh in let A7 := fresh in let A8 := fresh in
  destruct Ha as (A1 & A2 & A3 & A4 & A5 & A6 & A7 & A8);
  unfold conv_hyper in A1, A3, A4; unfold lin_hyper in A6, A7, A8;
  injection A1 as ? ? ? ? ?; injection A3 as ? ? ? ? ?;
  injection A4 as ? ? ? ? ?; injection A6 as ? ?;
  injection A7 as ? ?; injection A8 as ? ?.

(** One stage of [forward] that makes a storage: split on its outcome.
    [lem] describes the stage, [gg] joins two extensions of a world. *)
Ltac alloc_stage f lem gg :=
  match goal with
  | |- context [f ?L ?x ?w0] =>
      let S := fresh "S" in
      pose proof (lem L x w0) as S;
      destruct (f L x w0) as [[?t|?e] ?w1];
      [ destruct S as (? & -> & ?); rewrite ?gg; cbn [app]
      | subst; eexists; split; [|reflexivity]; cbn [length]; lia ]
  end.

(** ** Input sizes *)

(** The height (width) of the feature map that reaches [Flatten] for an
    input of height (width) [n]: the window formulas of cv1, mp1, cv2, cv3
    and mp2, one after the other. *)
Definition pooled (n : nat) : nat :=
  out_size (out_size (out_size (out_size (out_size n 4 2 0) 3 2 0) 3 1 1) 3 1 1)
           3 2 0.

(** The heights and widths [forward] takes: every window fits, and the
    64 pooled maps have the 7 * 7 * 64 cells that [fc1] expects. *)
Definition accepted (Hh W : nat) : Prop :=
  16 <= Hh /\ 16 <= W /\ pooled Hh * pooled W = 49.

(** ** Path names *)

(** The backslash is the only separator of [p]: it has no [/], which the
    operating system takes for a separator as well. *)
Definition no_slash (p : string) : bool :=
  negb (existsb (Ascii.eqb "/"%char) (list_ascii_of_string p)).

(** What follows the last backslash of [p]. *)
Definition file_name (p : string) : string :=
  match rindex sep p with
  | Some i => substring (S i) (String.length p - S i) p
  | None => p
  end.

(** A path as the docstrings write them, [folder\...\name.pth]: directories
    separated by backslashes only, then the name of a file, which is not
    empty, [.] or [..] (these name a directory). *)
Definition plain (p : string) : bool :=
  no_slash p && negb (mem (file_name p) [EmptyString; "."; ".."]).

(** ** Concrete worlds *)

(** The order of floats on their patterns (sign and magnitude; NaN
    apart). *)
Definition f32_key (p : f32) : Z :=
  if (p <? 2 ^ 31)%Z then p else (2 ^ 31 - p)%Z.

Definition max_pattern (a b : f32) : f32 :=
  if (f32_key a <? f32_key b)%Z then b else a.

(** An arithmetic to run the definitions on (the theorems hold for every
    arithmetic): the maximum of the floats, and addition and
    multiplication of the patterns as integers, which is what IEEE
    arithmetic gives for [a + 0.0] and for [x * 0.0] with [x] finite and
    positive. *)
Definition int_arith : Float32Arith :=
  {| f32_add := Z.add; f32_mul := Z.mul; f32_max := max_pattern |}.

Definition zeros (n : nat) : list f32 := repeat 0%Z n.

(** Twelve parameter storages, all zero but the bias of [fc3]. *)
Definition cells_with_bias (b : f32) : list (list f32) :=
  [ zeros (numel [32; 6; 4; 4]); zeros (numel [32]);
    zeros (numel [64; 32; 3; 3]); zeros (numel [64]);
    zeros (numel [64; 64; 3; 3]); zeros (numel [64]);
    zeros (numel [512; 3136]); zeros (numel [512]);
    zeros (numel [64; 512]); zeros (numel [64]);
    zeros (numel [1; 64]); [b] ].

(** One 64x64 image with 6 channels. *)
Definition demo_input : tensor :=
  Tensor [1; 6; 64; 64] (zeros (numel [1; 6; 64; 64])).

Definition demo_x : tref := TRef 0 [1; 6; 64; 64].

Definition demo_path : string := "models\m.pth".

Definition demo_fs : gmap string entry := {[ "models" := Dir ]}.

(** A world with the image, a model of zeros and the folder "models". *)
Definition demo_world : world :=
  World (data demo_input :: cells_with_bias 0%Z) demo_fs ["y"]
        (fun _ => 0%Z) 0 [].

Definition demo_model : RoCNN := init_model 1.

(** The same with files at "models\m.pth" and at "model.pth". *)
Definition file_world : world :=
  set_entries (<[demo_path := File (OtherBytes "old")]>
                 (<["model.pth" := File (OtherBytes "old")]> demo_fs))
              demo_world.

Definition nested_path : string := "runs\a\m.pth".

Definition prompt_world (answer : string) : world :=
  set_stdin [answer] demo_world.

(** A world whose file at "models\m.pth" is the pickle of an empty
    mapping. *)
Definition empty_dict_world : world :=
  set_entries (<[demo_path := File (Pickled [])]> demo_fs) demo_world.

(** The world after a first save to "models\m.pth". *)
Definition saved_world : world :=
  snd (save_model demo_model demo_path false demo_world).

(** The pattern of 1.0. *)
Definition one_f32 : f32 := 1065353216%Z.

(** A heap with the image, a model whose [fc3] bias is 1.0 and an older
    model of zeros. *)
Definition stale_heap : list (list f32) :=
  data demo_input :: (cells_with_bias one_f32 ++ cells_with_bias 0%Z).

Definition new_model : RoCNN := init_model 1.

Definition old_model : RoCNN := init_model 13.

Definition stale_base : world :=
  World stale_heap demo_fs [] (fun _ => 0%Z) 0 [].

(** The older model's checkpoint stands at "models\m.pth". *)
Definition stale_world : world :=
  set_entries
    (<[demo_path := checkpoint_of (value_of stale_base) old_model]> demo_fs)
    stale_base.

(** A (1, 3, 64, 128) view of the storage of the image. *)
Definition rgb_input : tensor :=
  Tensor [1; 3; 64; 128] (zeros (numel [1; 6; 64; 64])).

Definition rgb_x : tref := TRef 0 [1; 3; 64; 128].

(** A (1, 6, 32, 128) view of the same storage. *)
Definition wide_input : tensor :=
  Tensor [1; 6; 32; 128] (zeros (numel [1; 6; 64; 64])).

Definition wide_x : tref := TRef 0 [1; 6; 32; 128].

(** A path whose only backslash is its first character. *)
Definition root_path : string := "\m.pth".

(** The demo world with nothing to read on the console. *)
Definition silent_world : world := set_stdin [] demo_world.

(** A world whose file at "models\m.pth" holds a bias of two floats for
    [fc3]. *)
Definition wrong_size_world : world :=
  set_entries
    (<[demo_path := File (Pickled [("fc3.bias", Tensor [2] [0%Z; 0%Z])])]>
       demo_fs)
    demo_world.


(** The world after a save to "runs\a\m.pth". *)
Definition nested_world : world :=
  snd (save_model demo_model nested_path false demo_world).

(** The checkpoint of the demo model with its items in reverse order. *)
Definition reversed_mapping : list (string * tensor) :=
  rev (values_of (value_of demo_world) (state_dict demo_model)).

Definition reversed_world : world :=
  set_entries (<[demo_path := File (Pickled reversed_mapping)]> demo_fs)
              demo_world.

(** * Properties *)

(** ** Sizes of the layers' results *)

Arguments numel : simpl never.
(* [numel] of the sizes of fc1's weight is 1605632 in unary: compare its
   arguments before unfolding it. *)
Strategy 1000 [numel].

Lemma numel_cons (a : nat) (s : list nat) : numel (a :: s) = a * numel s.
Proof. reflexivity. Qed.

Lemma numel_nil : numel [] = 1.
Proof. reflexivity. Qed.

Lemma numel_app (s1 s2 : list nat) : numel (s1 ++ s2) = numel s1 * numel s2.
Proof.
  induction s1 as [|a s1 IH].
  - change (numel ([] ++ s2)) with (numel s2). change (numel []) with 1. lia.
  - change (numel ((a :: s1) ++ s2)) with (a * numel (s1 ++ s2)).
    rewrite numel_cons, IH. lia.
Qed.

Lemma length_flat_map_const {A B} (f : A -> list B) (l : list A) (k : nat) :
  (forall x, length (f x) = k) -> length (flat_map f l) = length l * k.
Proof.
  intros Hf. induction l as [|a l IH]; simpl; [reflexivity|].
  rewrite length_app, Hf, IH. reflexivity.
Qed.

Section LayerFacts.
Context `{Float32Arith}.

Lemma tabulate4_length B C Hh W f :
  length (tabulate4 B C Hh W f) = numel [B; C; Hh; W].
Proof.
  unfold tabulate4.
  rewrite (length_flat_map_const _ _ (C * (Hh * W))).
  - rewrite length_seq, !numel_cons, numel_nil. lia.
  - intros b. rewrite (length_flat_map_const _ _ (Hh * W)).
    + rewrite length_seq. reflexivity.
    + intros c. rewrite (length_flat_map_const _ _ W).
      * rewrite length_seq. reflexivity.
      * intros h. rewrite length_map, length_seq. reflexivity.
Qed.

Lemma tabulate2_length R C f : length (tabulate2 R C f) = R * C.
Proof.
  unfold tabulate2. rewrite (length_flat_map_const _ _ C).
  - rewrite length_seq. reflexivity.
  - intros r. rewrite length_map, length_seq. reflexivity.
Qed.

(** A convolution of a (B, cin, Hh, W) input that the kernel fits in
    returns a well-formed (B, cout, Ho, Wo) tensor. *)
Lemma conv2d_ok cin cout k s p w b x B Hh W :
  shape x = [B; cin; Hh; W] -> s <> 0 -> k <= Hh + 2 * p -> k <= W + 2 * p ->
  exists y, conv2d cin cout k s p w b x = Ok y
            /\ shape y = [B; cout; out_size Hh k s p; out_size W k s p]
            /\ tensor_wf y.
Proof.
  intros Hx Hs Hh1 Hw1. unfold conv2d. rewrite Hx.
  rewrite Nat.eqb_refl. simpl negb. cbv iota.
  destruct (Nat.eqb_spec s 0) as [?|_]; [contradiction|].
  destruct (Nat.ltb_spec (Hh + 2 * p) k) as [?|_]; [lia|].
  destruct (Nat.ltb_spec (W + 2 * p) k) as [?|_]; [lia|].
  simpl orb. cbv iota. eexists. split; [reflexivity|]. split; [reflexivity|].
  unfold tensor_wf. cbn [data shape]. apply tabulate4_length.
Qed.

Lemma max_pool2d_ok k s p x B C Hh W :
  shape x = [B; C; Hh; W] -> s <> 0 -> p <= k / 2 ->
  k <= Hh + 2 * p -> k <= W + 2 * p ->
  exists y, max_pool2d k s p x = Ok y
            /\ shape y = [B; C; out_size Hh k s p; out_size W k s p]
            /\ tensor_wf y.
Proof.
  intros Hx Hs Hp Hh1 Hw1. unfold max_pool2d. rewrite Hx.
  destruct (Nat.eqb_spec s 0) as [?|_]; [contradiction|].
  destruct (Nat.ltb_spec (k / 2) p) as [?|_]; [lia|].
  destruct (Nat.ltb_spec (Hh + 2 * p) k) as [?|_]; [lia|].
  destruct (Nat.ltb_spec (W + 2 * p) k) as [?|_]; [lia|].
  simpl orb. cbv iota. eexists. split; [reflexivity|]. split; [reflexivity|].
  unfold tensor_wf. cbn [data shape]. apply tabulate4_length.
Qed.

Lemma relu_shape x : shape (relu x) = shape x.
Proof. reflexivity. Qed.

Lemma relu_data_length d : length (relu_data d) = length d.
Proof. unfold relu_data. apply length_map. Qed.

Lemma relu_wf x : tensor_wf x -> tensor_wf (relu x).
Proof. unfold tensor_wf, relu. cbn [data shape]. rewrite relu_data_length. auto. Qed.

(** A linear layer on a (R, fin) input returns a well-formed (R, fout)
    tensor. *)
Lemma linear_ok fin fout w b x R :
  shape x = [R; fin] ->
  exists y, linear fin fout w b x = Ok y
            /\ shape y = [R; fout] /\ tensor_wf y.
Proof.
  intros Hx. unfold linear. rewrite Hx. cbn [rev app].
  rewrite Nat.eqb_refl. simpl negb. cbv iota.
  eexists. split; [reflexivity|]. split; [reflexivity|].
  unfold tensor_wf. cbn [data shape]. rewrite tabulate2_length.
  cbn [rev app]. rewrite !numel_cons, numel_nil. lia.
Qed.

End LayerFacts.

(** ** Tensor values in the heap *)

Lemma read_tensor_holds w t v : holds w t v -> read_tensor t w = (Ok v, w).
Proof.
  intros [Hd Hs]. unfold read_tensor. rewrite Hd, Hs. destruct v; reflexivity.
Qed.

Lemma read_tensor_inv w t v w' :
  read_tensor t w = (Ok v, w') -> holds w t v /\ w' = w.
Proof.
  unfold read_tensor, holds. destruct (heap w !! stor t) eqn:E; intros Heq;
    inversion Heq; subst; auto.
Qed.

Lemma grow_nil w : grow w [] = w.
Proof. unfold grow, set_heap. rewrite app_nil_r. destruct w; reflexivity. Qed.

Lemma grow_grow w h1 h2 : grow (grow w h1) h2 = grow w (h1 ++ h2).
Proof. unfold grow, set_heap. cbn. rewrite app_assoc. reflexivity. Qed.

Lemma heap_grow w h : heap (grow w h) = heap w ++ h.
Proof. reflexivity. Qed.

Lemma holds_grow w h t v : holds w t v -> holds (grow w h) t v.
Proof.
  intros [Hd Hs]. split; [|exact Hs]. rewrite heap_grow.
  rewrite lookup_app_l; [exact Hd|]. eapply lookup_lt_Some; eauto.
Qed.

Lemma alloc_grow w h v :
  alloc v (grow w h)
  = (Ok (TRef (length (heap w ++ h)) (shape v)), grow w (h ++ [data v])).
Proof. unfold alloc. rewrite <- grow_grow. reflexivity. Qed.

Lemma holds_fresh w h v :
  holds (grow w (h ++ [data v])) (TRef (length (heap w ++ h)) (shape v)) v.
Proof.
  split; [|reflexivity]. rewrite heap_grow. cbn [stor].
  rewrite app_assoc. apply list_lookup_middle. reflexivity.
Qed.

Section Refinement.
Context `{Float32Arith}.

(** ReLU(inplace=True) on the storage allocated last. *)
Lemma ReLU_inplace_fresh w h y :
  ReLU_inplace (TRef (length (heap w ++ h)) (shape y)) (grow w (h ++ [data y]))
  = (Ok (TRef (length (heap w ++ h)) (shape y)),
     grow w (h ++ [data (relu y)])).
Proof.
  unfold ReLU_inplace, bind.
  rewrite (read_tensor_holds _ _ y) by apply holds_fresh.
  unfold write_data. cbn [stor data relu ret].
  rewrite heap_grow.
  assert (Hlt : (length (heap w ++ h) <? length (heap w ++ h ++ [data y])) = true).
  { apply Nat.ltb_lt. rewrite !length_app. cbn [length]. lia. }
  rewrite Hlt. f_equal. unfold grow, set_heap. cbn. f_equal.
  rewrite !app_assoc. rewrite insert_app_r_alt by lia.
  rewrite Nat.sub_diag. reflexivity.
Qed.

(** ** Stages against functions on values *)

Lemma conv_relu_refines L wv bv w0 :
  holds w0 (Conv2d.weight L) wv -> holds w0 (Conv2d.bias L) bv ->
  refines (conv_relu L) (conv_relu_fn L wv bv) w0.
Proof.
  intros Hw Hb h x xv Hx. unfold conv_relu, Conv2d_forward, bind at 1 2 3 4 5.
  rewrite (read_tensor_holds _ _ _ Hx).
  rewrite (read_tensor_holds _ _ _ (holds_grow _ h _ _ Hw)).
  rewrite (read_tensor_holds _ _ _ (holds_grow _ h _ _ Hb)).
  unfold lift, conv_relu_fn, conv2d_of.
  destruct (conv2d _ _ _ _ _ wv bv xv) as [y|e]; cbn [rbind].
  - rewrite alloc_grow, ReLU_inplace_fresh.
    eexists _, [data (relu y)]. split; [reflexivity|].
    apply (holds_fresh w0 h (relu y)).
  - exists (Raise e), []. rewrite app_nil_r. split; reflexivity.
Qed.

Lemma linear_relu_refines L wv bv w0 :
  holds w0 (Linear.weight L) wv -> holds w0 (Linear.bias L) bv ->
  refines (linear_relu L) (linear_relu_fn L wv bv) w0.
Proof.
  intros Hw Hb h x xv Hx. unfold linear_relu, Linear_forward, bind at 1 2 3 4 5.
  rewrite (read_tensor_holds _ _ _ Hx).
  rewrite (read_tensor_holds _ _ _ (holds_grow _ h _ _ Hw)).
  rewrite (read_tensor_holds _ _ _ (holds_grow _ h _ _ Hb)).
  unfold lift, linear_relu_fn, linear_of.
  destruct (linear _ _ wv bv xv) as [y|e]; cbn [rbind].
  - rewrite alloc_grow, ReLU_inplace_fresh.
    eexists _, [data (relu y)]. split; [reflexivity|].
    apply (holds_fresh w0 h (relu y)).
  - exists (Raise e), []. rewrite app_nil_r. split; reflexivity.
Qed.

Lemma Linear_forward_refines L wv bv w0 :
  holds w0 (Linear.weight L) wv -> holds w0 (Linear.bias L) bv ->
  refines (Linear_forward L) (linear_of L wv bv) w0.
Proof.
  intros Hw Hb h x xv Hx. unfold Linear_forward, bind.
  rewrite (read_tensor_holds _ _ _ Hx).
  rewrite (read_tensor_holds _ _ _ (holds_grow _ h _ _ Hw)).
  rewrite (read_tensor_holds _ _ _ (holds_grow _ h _ _ Hb)).
  unfold lift, linear_of.
  destruct (linear _ _ wv bv xv) as [y|e].
  - rewrite alloc_grow. eexists _, [data y]. split; [reflexivity|].
    apply holds_fresh.
  - exists (Raise e), []. rewrite app_nil_r. split; reflexivity.
Qed.

Lemma MaxPool2d_forward_refines P w0 :
  refines (MaxPool2d_forward P) (max_pool2d_of P) w0.
Proof.
  intros h x xv Hx. unfold MaxPool2d_forward, bind.
  rewrite (read_tensor_holds _ _ _ Hx). unfold lift, max_pool2d_of.
  destruct (max_pool2d _ _ _ xv) as [y|e].
  - rewrite alloc_grow. eexists _, [data y]. split; [reflexivity|].
    apply holds_fresh.
  - exists (Raise e), []. rewrite app_nil_r. split; reflexivity.
Qed.

Lemma Flatten_forward_refines w0 : refines Flatten_forward flatten w0.
Proof.
  intros h x xv [Hd Hs]. unfold Flatten_forward, flatten, bind, lift.
  rewrite Hs. destruct (flatten_shape (shape xv)) as [s|e]; cbn [rbind].
  - exists (Ok (TRef (stor x) s)), []. rewrite app_nil_r.
    split; [reflexivity|]. split; [exact Hd|reflexivity].
  - exists (Raise e), []. rewrite app_nil_r. split; reflexivity.
Qed.

End Refinement.

(** ** The forward pass as a function of parameter values and input *)

Section ForwardFunction.
Context `{Float32Arith}.

Lemma run_stages_refines w0 fs gs :
  Forall2 (fun f g => refines f g w0) fs gs ->
  forall h x xv, holds (grow w0 h) x xv ->
    exists r h', run_stages fs x (grow w0 h) = (r, grow w0 (h ++ h'))
      /\ match run_stages_fn gs xv, r with
         | Ok (y, ss), Ok (t, ss') => holds (grow w0 (h ++ h')) t y /\ ss' = ss
         | Raise e, Raise e' => e = e'
         | _, _ => False
         end.
Proof.
  induction 1 as [|f g fs gs Hfg _ IH]; intros h x xv Hx.
  - exists (Ok (x, [])), []. rewrite app_nil_r. cbn. auto.
  - destruct (Hfg h x xv Hx) as (r1 & h1 & E1 & M1).
    cbn [run_stages run_stages_fn]. unfold bind at 1. rewrite E1.
    destruct (g xv) as [y|e], r1 as [t|e']; try contradiction; cbn [rbind].
    + destruct (IH (h ++ h1) t y M1) as (r2 & h2 & E2 & M2).
      unfold bind. rewrite E2. rewrite <- app_assoc.
      destruct (run_stages_fn gs y) as [[y' ss]|e], r2 as [[t' ss']|e'];
        try contradiction; cbn [rbind ret fst snd].
      * eexists _, (h1 ++ h2). split; [reflexivity|].
        destruct M2 as [M2 ->]. destruct M1 as [_ ->].
        rewrite <- app_assoc in M2. cbn. auto.
      * eexists _, (h1 ++ h2). split; [reflexivity|]. exact M2.
    + exists (Raise e'), h1. auto.
Qed.

Lemma forward_run_stages self x w :
  forward self x w
  = match run_stages (stages self) x w with
    | (Ok r, w') => (Ok (fst r), w')
    | (Raise e, w') => (Raise e, w')
    end.
Proof.
  unfold forward, stages. cbn [run_stages]. unfold bind, ret.
  repeat match goal with
         | |- context [match ?f ?a ?b with _ => _ end] =>
             destruct (f a b) as [[?|?] ?]; cbn [fst snd]; try reflexivity
         end.
Qed.

Lemma stages_refine self pv w0 :
  has_params w0 self pv ->
  Forall2 (fun f g => refines f g w0) (stages self) (stages_fn self pv).
Proof.
  unfold has_params, state_dict. rewrite !Forall_cons. cbn [snd].
  intros (? & ? & ? & ? & ? & ? & ? & ? & ? & ? & ? & ? & _).
  unfold stages, stages_fn.
  repeat match goal with |- Forall2 _ _ _ => constructor end;
    auto using conv_relu_refines, linear_relu_refines, Linear_forward_refines,
               MaxPool2d_forward_refines, Flatten_forward_refines.
Qed.

(** [forward] computes [forward_fn] of the parameter values and the input
    value, and changes the world by appending storages only. *)
Lemma forward_refines self pv w x xv :
  has_params w self pv -> holds w x xv ->
  exists r h', forward self x w = (r, grow w h')
    /\ match forward_fn self pv xv, r with
       | Ok y, Ok t => holds (grow w h') t y
       | Raise e, Raise e' => e = e'
       | _, _ => False
       end.
Proof.
  intros Hp Hx. rewrite <- (grow_nil w) in Hx.
  destruct (run_stages_refines w _ _ (stages_refine _ _ _ Hp) [] x xv Hx)
    as (r & h' & E & Hm).
  rewrite grow_nil in E. cbn [app] in E, Hm.
  rewrite forward_run_stages, E. unfold forward_fn.
  destruct (run_stages_fn _ xv) as [[y ss]|e], r as [[t ss']|e'];
    try contradiction; cbn [rbind fst].
  - eexists _, h'. split; [reflexivity|]. apply Hm.
  - eexists _, h'. split; [reflexivity|]. exact Hm.
Qed.

End ForwardFunction.

(** ** Well-formed models *)

Lemma param_ok_holds w t s : param_ok w t s -> holds w t (value_of w t).
Proof.
  intros (_ & d & Hd & _). unfold holds, value_of. rewrite Hd. auto.
Qed.

Lemma params_ok_has_params w m : params_ok w m -> has_params w m (value_of w).
Proof.
  intros ([? ?] & [? ?] & [? ?] & [? ?] & [? ?] & [? ?]).
  unfold has_params, state_dict.
  repeat (apply Forall_cons; split); try apply Forall_nil;
    cbn [snd]; eauto using param_ok_holds.
Qed.

Lemma params_ok_shaped w m : arch_ok m -> params_ok w m <-> shaped w m.
Proof.
  intros Ha. arch_equations Ha.
  unfold params_ok, conv_params_ok, lin_params_ok, shaped, state_dict,
    param_shapes.
  repeat match goal with
         | Hx : Conv2d.in_channels _ = _ |- _ => rewrite Hx; clear Hx
         | Hx : Conv2d.out_channels _ = _ |- _ => rewrite Hx; clear Hx
         | Hx : Conv2d.kernel_size _ = _ |- _ => rewrite Hx; clear Hx
         | Hx : Linear.in_features _ = _ |- _ => rewrite Hx; clear Hx
         | Hx : Linear.out_features _ = _ |- _ => rewrite Hx; clear Hx
         end.
  split.
  - intros ([? ?] & [? ?] & [? ?] & [? ?] & [? ?] & [? ?]).
    repeat (apply List.Forall2_cons; [assumption|]). apply List.Forall2_nil.
  - intros Hs. split_Forall2.
    repeat match goal with |- _ /\ _ => split end; assumption.
Qed.

Lemma param_ok_mono w w' t s :
  (forall l d, heap w !! l = Some d -> heap w' !! l = Some d) ->
  param_ok w t s -> param_ok w' t s.
Proof. intros Hm (Hs & d & Hd & Hl). split; eauto. Qed.

Lemma shaped_mono w w' m :
  (forall l d, heap w !! l = Some d -> heap w' !! l = Some d) ->
  shaped w m -> shaped w' m.
Proof.
  intros Hm Hs. unfold shaped. eapply Forall2_impl; [exact Hs|].
  intros kt s. apply param_ok_mono. exact Hm.
Qed.

Section Shapes.
Context `{Float32Arith}.

Lemma stages_fn_shapes m pv X B :
  arch_ok m -> shape X = [B; 6; 64; 64] ->
  exists Y, run_stages_fn (stages_fn m pv) X = Ok (Y, stage_shapes B)
            /\ shape Y = [B; 1] /\ tensor_wf Y
            /\ exists hv, shape hv = [B; 64]
                 /\ linear 64 1 (pv (Linear.weight (fc3 m)))
                      (pv (Linear.bias (fc3 m))) hv = Ok Y.
Proof.
  intros (A1 & A2 & A3 & A4 & A5 & A6 & A7 & A8) HX.
  unfold stages_fn, conv_relu_fn, linear_relu_fn, conv2d_of, linear_of,
    max_pool2d_of.
  unfold conv_hyper in A1, A3, A4. unfold lin_hyper in A6, A7, A8.
  injection A1 as a1 a2 a3 a4 a5. injection A3 as b1 b2 b3 b4 b5.
  injection A4 as c1 c2 c3 c4 c5. injection A6 as d1 d2.
  injection A7 as e1 e2. injection A8 as f1 f2.
  rewrite a1, a2, a3, a4, a5, b1, b2, b3, b4, b5, c1, c2, c3, c4, c5,
    d1, d2, e1, e2, f1, f2, A2, A5.
  cbn [MaxPool2d.kernel_size MaxPool2d.stride MaxPool2d.padding].
  cbn [run_stages_fn].
  (* conv A *)
  destruct (conv2d_ok 6 32 4 2 0 (pv (Conv2d.weight (cv1 m)))
              (pv (Conv2d.bias (cv1 m))) X B 64 64 HX)
    as (y1 & E1 & S1 & W1); [lia..|].
  change (out_size 64 4 2 0) with 31 in S1. rewrite E1. cbn [rbind].
  (* max-pool A *)
  destruct (max_pool2d_ok 3 2 0 (relu y1) B 32 31 31 S1)
    as (y2 & E2 & S2 & W2); [cbn; lia..|].
  change (out_size 31 3 2 0) with 15 in S2. rewrite E2. cbn [rbind].
  (* conv B *)
  destruct (conv2d_ok 32 64 3 1 1 (pv (Conv2d.weight (cv2 m)))
              (pv (Conv2d.bias (cv2 m))) y2 B 15 15 S2)
    as (y3 & E3 & S3 & W3); [lia..|].
  change (out_size 15 3 1 1) with 15 in S3. rewrite E3. cbn [rbind].
  (* conv C *)
  destruct (conv2d_ok 64 64 3 1 1 (pv (Conv2d.weight (cv3 m)))
              (pv (Conv2d.bias (cv3 m))) (relu y3) B 15 15 S3)
    as (y4 & E4 & S4 & W4); [lia..|].
  change (out_size 15 3 1 1) with 15 in S4. rewrite E4. cbn [rbind].
  (* max-pool B *)
  destruct (max_pool2d_ok 3 2 0 (relu y4) B 64 15 15 S4)
    as (y5 & E5 & S5 & W5); [cbn; lia..|].
  change (out_size 15 3 2 0) with 7 in S5. rewrite E5. cbn [rbind].
  (* flatten *)
  unfold flatten. rewrite S5. cbn [flatten_shape rbind].
  change (numel [64; 7; 7]) with 3136.
  (* dense A, B, C *)
  destruct (linear_ok 3136 512 (pv (Linear.weight (fc1 m)))
              (pv (Linear.bias (fc1 m))) (Tensor [B; 3136] (data y5)) B eq_refl)
    as (y6 & E6 & S6 & W6).
  rewrite E6. cbn [rbind].
  destruct (linear_ok 512 64 (pv (Linear.weight (fc2 m)))
              (pv (Linear.bias (fc2 m))) (relu y6) B S6)
    as (y7 & E7 & S7 & W7).
  rewrite E7. cbn [rbind].
  destruct (linear_ok 64 1 (pv (Linear.weight (fc3 m)))
              (pv (Linear.bias (fc3 m))) (relu y7) B S7)
    as (y8 & E8 & S8 & W8).
  rewrite E8. cbn [rbind fst snd shape relu].
  exists y8. rewrite ?S1, ?S2, ?S3, ?S4, ?S5, ?S6, ?S7, ?S8.
  split; [reflexivity|]. split; [reflexivity|]. split; [exact W8|].
  exists (relu y7). split; [exact S7|exact E8].
Qed.

End Shapes.

Section ForwardTheorems.
Context `{Float32Arith}.

Lemma forward_value_fn m x w pv X :
  has_params w m pv -> holds w x X ->
  forward_value m x w = forward_fn m pv X.
Proof.
  intros Hp Hx. destruct (forward_refines m pv w x X Hp Hx) as (r & h' & E & Hm).
  unfold forward_value. rewrite E.
  destruct (forward_fn m pv X) as [y|e], r as [t|e']; try contradiction.
  - rewrite (read_tensor_holds _ _ _ Hm). reflexivity.
  - congruence.
Qed.

Lemma has_params_grow w h m pv :
  has_params w m pv -> has_params (grow w h) m pv.
Proof.
  unfold has_params. intros Hp. eapply Forall_impl; [exact Hp|].
  intros kt. apply holds_grow.
Qed.

(** C2.  On an input of sizes (B, 6, 64, 64), B >= 1, [forward] returns
    a tensor of sizes (B, 1): the handle has these sizes and its storage
    holds B floats. *)
Theorem forward_output_shape m x w X B :
  model_ok w m -> holds w x X -> shape X = [B; 6; 64; 64] -> 1 <= B ->
  exists y w', forward m x w = (Ok y, w')
    /\ tshape y = [B; 1]
    /\ exists d, heap w' !! stor y = Some d /\ length d = B.
Proof.
  intros [Ha Hp] Hx HX _.
  destruct (forward_refines m (value_of w) w x X
              (params_ok_has_params _ _ Hp) Hx) as (r & h' & E & Hm).
  unfold forward_fn in Hm.
  destruct (stages_fn_shapes m (value_of w) X B Ha HX)
    as (Y & EY & SY & WY & _).
  rewrite EY in Hm. cbn [rbind fst] in Hm.
  destruct r as [t|e]; [|contradiction]. destruct Hm as [Hd Hs].
  exists t, (grow w h'). split; [exact E|]. split; [congruence|].
  exists (data Y). split; [exact Hd|].
  unfold tensor_wf in WY. rewrite WY, SY, !numel_cons, numel_nil. lia.
Qed.

(** C3.  For a single 64x64 input with 6 channels the results of the nine
    stages of [forward] have, in order, the sizes (channels, height,
    width) 32x31x31, 32x15x15, 64x15x15, 64x15x15, 64x7x7, then 3136, 512,
    64 and 1 features; and each layer takes as many channels (features)
    as the layer before it gives. *)
Theorem forward_shape_chain m x w X :
  model_ok w m -> holds w x X -> shape X = [1; 6; 64; 64] ->
  (exists y w',
      run_stages (stages m) x w
      = (Ok (y, [ [1; 32; 31; 31]; [1; 32; 15; 15]; [1; 64; 15; 15];
                  [1; 64; 15; 15]; [1; 64; 7; 7]; [1; 3136]; [1; 512];
                  [1; 64]; [1; 1] ]), w')
      /\ forward m x w = (Ok y, w'))
  /\ Conv2d.out_channels (cv1 m) = Conv2d.in_channels (cv2 m)
  /\ Conv2d.out_channels (cv2 m) = Conv2d.in_channels (cv3 m)
  /\ 7 * 7 * Conv2d.out_channels (cv3 m) = Linear.in_features (fc1 m)
  /\ Linear.out_features (fc1 m) = Linear.in_features (fc2 m)
  /\ Linear.out_features (fc2 m) = Linear.in_features (fc3 m)
  /\ Linear.out_features (fc3 m) = 1.
Proof.
  intros [Ha Hp] Hx HX. split.
  - pose proof (stages_refine m (value_of w) w (params_ok_has_params _ _ Hp))
      as Hst.
    rewrite <- (grow_nil w) in Hx.
    destruct (run_stages_refines w _ _ Hst [] x X Hx) as (r & h' & E & Hm).
    rewrite grow_nil in E. cbn [app] in E, Hm.
    destruct (stages_fn_shapes m (value_of w) X 1 Ha HX) as (Y & EY & _).
    rewrite EY in Hm. destruct r as [[t ss]|e]; [|contradiction].
    destruct Hm as [_ ->]. exists t, (grow w h').
    split; [exact E|]. rewrite forward_run_stages, E. reflexivity.
  - destruct Ha as (A1 & _ & A3 & A4 & _ & A6 & A7 & A8).
    unfold conv_hyper in A1, A3, A4. unfold lin_hyper in A6, A7, A8.
    injection A1 as a1 a2 a3 a4 a5. injection A3 as b1 b2 b3 b4 b5.
    injection A4 as c1 c2 c3 c4 c5. injection A6 as d1 d2.
    injection A7 as e1 e2. injection A8 as f1 f2.
    rewrite a2, b1, b2, c1, c2, d1, d2, e1, e2, f1, f2. repeat split.
Qed.

(** C9.  [forward] is a function of the parameter values and the input
    value: the value it returns is [forward_fn] of them, a second call
    after the first returns the same value, and a call changes nothing
    that existed before it (it only appends storages to the heap:
    parameters and input keep their values, and file system, console,
    generator and trace are as they were). *)
Theorem forward_pure m x w pv X :
  has_params w m pv -> holds w x X ->
  exists r h',
    forward m x w = (r, grow w h')
    /\ forward_value m x w = forward_fn m pv X
    /\ forward_value m x (grow w h') = forward_fn m pv X
    /\ has_params (grow w h') m pv
    /\ holds (grow w h') x X.
Proof.
  intros Hp Hx. destruct (forward_refines m pv w x X Hp Hx) as (r & h' & E & _).
  exists r, h'. split; [exact E|].
  split; [apply forward_value_fn; assumption|].
  split; [apply forward_value_fn; auto using has_params_grow, holds_grow|].
  auto using has_params_grow, holds_grow.
Qed.

End ForwardTheorems.

(** ** Strings and paths *)

Lemma rindex_from_spec c s : forall i last,
  match rindex_from c s i last with
  | None => last = None /\ ~ In c (list_ascii_of_string s)
  | Some j =>
      (last = Some j /\ ~ In c (list_ascii_of_string s))
      \/ (i <= j /\ j < i + String.length s /\ In c (list_ascii_of_string s))
  end.
Proof.
  induction s as [|a s IH]; intros i last; cbn [rindex_from].
  - destruct last; cbn; auto.
  - specialize (IH (S i) (if Ascii.eqb a c then Some i else last)).
    cbn [list_ascii_of_string String.length In].
    destruct (rindex_from c s (S i) _) as [j|].
    + destruct IH as [[Hl Hn]|(Hb1 & Hb2 & Hin)]; [|right; repeat split; auto; lia].
      destruct (Ascii.eqb_spec a c) as [->|Hne].
      * injection Hl as <-. right. repeat split; auto; lia.
      * left. split; [exact Hl|]. intros [?|?]; auto.
    + destruct IH as [Hl Hn].
      destruct (Ascii.eqb_spec a c) as [->|Hne]; [discriminate|].
      split; [exact Hl|]. intros [?|?]; auto.
Qed.

(** [rindex] fails exactly on the strings without the character. *)
Lemma rindex_None c s :
  rindex c s = None <-> ~ In c (list_ascii_of_string s).
Proof.
  unfold rindex. pose proof (rindex_from_spec c s 0 None) as Hs.
  destruct (rindex_from c s 0 None) as [j|].
  - destruct Hs as [[? _]|(_ & _ & Hin)]; [discriminate|].
    split; [discriminate|]. intros Hn. contradiction.
  - split; [tauto|reflexivity].
Qed.

Lemma rindex_lt c s j : rindex c s = Some j -> j < String.length s.
Proof.
  unfold rindex. pose proof (rindex_from_spec c s 0 None) as Hs.
  intros E. rewrite E in Hs. destruct Hs as [[? _]|(_ & Hb & _)];
    [discriminate|lia].
Qed.

Lemma length_prefix_to s : forall i,
  String.length (prefix_to i s) = Nat.min i (String.length s).
Proof.
  unfold prefix_to. induction s as [|a s IH]; intros [|i]; cbn; auto.
Qed.

Lemma sep_indices_lt s : forall i j,
  In j (sep_indices s i) -> j < i + String.length s.
Proof.
  induction s as [|a s IH]; intros i j; cbn [sep_indices String.length].
  - intros [].
  - rewrite in_app_iff. intros [Hj|Hj].
    + destruct (Ascii.eqb a sep); cbn in Hj; [|contradiction].
      destruct Hj as [<-|[]]. lia.
    + apply IH in Hj. lia.
Qed.

(** The directories above a name are shorter than it. *)
Lemma ancestors_shorter name a :
  In a (ancestors name) -> String.length a < String.length name.
Proof.
  unfold ancestors. rewrite <- list_elem_of_In, list_elem_of_filter.
  intros [_ Ha]. rewrite list_elem_of_In, in_map_iff in Ha.
  destruct Ha as (j & <- & Hj). apply sep_indices_lt in Hj.
  rewrite length_prefix_to. lia.
Qed.

(** [path[:path.rindex(sep)]] is shorter than [path]. *)
Lemma folder_shorter path i :
  rindex sep path = Some i ->
  String.length (prefix_to i path) < String.length path.
Proof. intros E. apply rindex_lt in E. rewrite length_prefix_to. lia. Qed.




(** ** Worlds *)

Lemma log_log es1 es2 w : log es2 (log es1 w) = log (es1 ++ es2) w.
Proof. unfold log. cbn. rewrite app_assoc. reflexivity. Qed.

Lemma has_params_same_heap w w' m pv :
  heap w' = heap w -> has_params w m pv -> has_params w' m pv.
Proof.
  intros Hh. unfold has_params. intros Hp. eapply Forall_impl; [exact Hp|].
  intros kt. unfold holds. rewrite Hh. auto.
Qed.

Lemma snapshot_ok obj pv w :
  Forall (fun kt => holds w (snd kt) (pv (snd kt))) obj ->
  snapshot obj w = (Ok (values_of pv obj), w).
Proof.
  induction 1 as [|[k t] obj Hh _ IH]; [reflexivity|].
  cbn [snapshot values_of map fst snd] in *. unfold bind.
  rewrite (read_tensor_holds _ _ _ Hh), IH. reflexivity.
Qed.

(** torch.save either raises before anything is written or puts the
    pickle of the current values at [path]. *)
Lemma torch_save_run obj pv path w :
  Forall (fun kt => holds w (snd kt) (pv (snd kt))) obj ->
  torch_save obj path w
  = match open_for_write path w with
    | (Ok _, _) =>
        (Ok tt, log [EvWrite path]
                  (set_entries
                     (<[path := File (Pickled (values_of pv obj))]> (entries w))
                     w))
    | (Raise e, _) => (Raise e, w)
    end.
Proof.
  intros Hobj. unfold torch_save, bind.
  assert (Hw : forall r w', open_for_write path w = (r, w') -> w' = w).
  { unfold open_for_write. intros r w'.
    destruct (is_dir w path); [congruence|].
    destruct (rindex sep path); [|congruence].
    destruct (is_dir w _); congruence. }
  destruct (open_for_write path w) as [[[]|e] w'];
    rewrite (Hw _ _ eq_refl); [|reflexivity].
  rewrite (snapshot_ok _ pv _ Hobj). reflexivity.
Qed.

Lemma open_for_write_ok path i w :
  is_dir w path = false -> rindex sep path = Some i ->
  is_dir w (prefix_to i path) = true ->
  open_for_write path w = (Ok tt, w).
Proof.
  intros H1 H2 H3. unfold open_for_write. rewrite H1, H2, H3. reflexivity.
Qed.

Lemma is_file_not_dir w p : is_file w p = true -> is_dir w p = false.
Proof. unfold is_file, is_dir. destruct (entries w !! p) as [[|c]|]; auto. Qed.

Lemma is_file_entry w p : is_file w p = true -> is_entry w p = true.
Proof.
  unfold is_file, is_entry. destruct (entries w !! p) as [[|c]|]; auto.
Qed.

Lemma is_dir_entry w p : is_dir w p = true -> is_entry w p = true.
Proof.
  unfold is_dir, is_entry. destruct (entries w !! p) as [[|c]|]; auto.
Qed.

(** ** Making directories *)

Lemma lookup_mkdirs made fs p :
  mkdirs made fs !! p = if mem p made then Some Dir else fs !! p.
Proof.
  unfold mem. induction made as [|a made IH]; cbn [mkdirs foldr existsb];
    [reflexivity|].
  destruct (String.eqb_spec p a) as [->|Hne]; cbn [orb].
  - apply lookup_insert_eq.
  - rewrite lookup_insert_ne by congruence. exact IH.
Qed.

Lemma mem_In k ks : mem k ks = true <-> In k ks.
Proof.
  unfold mem. rewrite existsb_exists. split.
  - intros (x & Hx & E). apply String.eqb_eq in E. subst. exact Hx.
  - intros Hk. exists k. split; [exact Hk|apply String.eqb_refl].
Qed.

Lemma mem_false k ks : (forall a, In a ks -> a <> k) -> mem k ks = false.
Proof.
  intros Hne. destruct (mem k ks) eqn:E; [|reflexivity].
  apply mem_In in E. exfalso. exact (Hne k E eq_refl).
Qed.

Lemma missing_dirs_In w name a :
  In a (missing_dirs w name) ->
  is_entry w a = false /\ (In a (ancestors name) \/ a = name).
Proof.
  unfold missing_dirs. rewrite filter_In, in_app_iff. cbn [In].
  intros [Ha Hn]. apply negb_true_iff in Hn.
  split; [exact Hn|]. destruct Ha as [Ha|[Ha|[]]]; auto.
Qed.

Lemma missing_dirs_self w name :
  is_entry w name = false -> In name (missing_dirs w name).
Proof.
  intros Hn. unfold missing_dirs. rewrite filter_In, in_app_iff. cbn [In].
  rewrite Hn. auto.
Qed.

Lemma missing_dirs_short w name a :
  In a (missing_dirs w name) -> String.length a <= String.length name.
Proof.
  intros Ha. apply missing_dirs_In in Ha. destruct Ha as [_ [Ha| ->]]; [|lia].
  apply ancestors_shorter in Ha. lia.
Qed.




Lemma makedirs_ok name w :
  name <> EmptyString -> is_entry w name = false ->
  existsb (is_file w) (ancestors name) = false ->
  makedirs name w
  = (Ok tt, log (map EvMkdir (missing_dirs w name))
              (set_entries (mkdirs (missing_dirs w name) (entries w)) w)).
Proof.
  intros Hne He Ha. unfold makedirs.
  destruct (String.eqb_spec name EmptyString) as [?|_]; [contradiction|].
  rewrite He, Ha. reflexivity.
Qed.



(** ** save_model *)

Section SaveModel.
Context `{Float32Arith}.

(** The no-clobber return. *)
Lemma save_model_skip_run model path i w :
  rindex sep path = Some i ->
  is_entry w (prefix_to i path) = true ->
  is_entry w path = true ->
  save_model model path false w
  = (Ok tt, log [EvExists (prefix_to i path); EvExists path] w).
Proof.
  intros Hi Hf Hp. unfold save_model, bind, lift, path_exists.
  rewrite Hi, Hf. cbn [negb].
  change (is_entry (log _ w) path) with (is_entry w path).
  rewrite Hp. cbn [negb ret]. rewrite log_log. reflexivity.
Qed.

(** A save into an existing folder. *)
Lemma save_model_write_run model path i w pv overwrite :
  rindex sep path = Some i ->
  is_dir w (prefix_to i path) = true ->
  is_dir w path = false ->
  overwrite = true \/ is_entry w path = false ->
  has_params w model pv ->
  save_model model path overwrite w
  = (Ok tt, log [EvExists (prefix_to i path); EvExists path; EvWrite path;
                 EvPrint (saved_notice path)]
              (set_entries (<[path := checkpoint_of pv model]> (entries w)) w)).
Proof.
  intros Hi Hf Hd Hw Hm.
  assert (Hs : forall es,
    (torch_save (state_dict model) path ;; print (saved_notice path)) (log es w)
    = (Ok tt, log (es ++ [EvWrite path; EvPrint (saved_notice path)])
                (set_entries (<[path := checkpoint_of pv model]> (entries w)) w))).
  { intros es. unfold bind. rewrite (torch_save_run _ pv).
    2:{ apply (has_params_same_heap w); [reflexivity|exact Hm]. }
    rewrite (open_for_write_ok path i); [|exact Hd|exact Hi|exact Hf].
    unfold print, log, set_entries, checkpoint_of. cbn.
    rewrite <- !app_assoc. reflexivity. }
  unfold save_model. fold (saved_notice path). cbv zeta.
  unfold bind at 1. unfold lift. rewrite Hi.
  unfold bind at 1. unfold path_exists at 1. rewrite (is_dir_entry _ _ Hf).
  cbn [negb]. unfold bind at 1. unfold path_exists.
  change (is_entry (log _ w) path) with (is_entry w path).
  rewrite log_log.
  destruct (is_entry w path) eqn:Ep.
  - destruct Hw as [->|?]; [|discriminate]. cbn [negb]. apply Hs.
  - apply Hs.
Qed.

(** A save into a folder that has to be made. *)
Lemma save_model_new_folder_run model path i w pv overwrite :
  rindex sep path = Some i ->
  prefix_to i path <> EmptyString ->
  is_entry w (prefix_to i path) = false ->
  is_entry w path = false ->
  existsb (is_file w) (ancestors (prefix_to i path)) = false ->
  has_params w model pv ->
  save_model model path overwrite w
  = (Ok tt,
     log ([EvExists (prefix_to i path)]
          ++ map EvMkdir (missing_dirs w (prefix_to i path))
          ++ [EvPrint (created_notice (prefix_to i path)); EvWrite path;
              EvPrint (saved_notice path)])
       (set_entries
          (<[path := checkpoint_of pv model]>
             (mkdirs (missing_dirs w (prefix_to i path)) (entries w))) w)).
Proof.
  intros Hi Hne Hf Hp Ha Hm.
  unfold save_model. fold (saved_notice path).
  fold (created_notice (prefix_to i path)). cbv zeta.
  unfold bind at 1. unfold lift. rewrite Hi.
  unfold bind at 1. unfold path_exists at 1. rewrite Hf. cbn [negb].
  unfold bind at 1.
  rewrite makedirs_ok; [|exact Hne|exact Hf|exact Ha].
  change (missing_dirs (log _ w)) with (missing_dirs w).
  unfold bind at 1. unfold print at 1. unfold bind.
  rewrite (torch_save_run _ pv).
  2:{ apply (has_params_same_heap w); [reflexivity|exact Hm]. }
  set (made := missing_dirs w (prefix_to i path)).
  assert (Hnot : mem path made = false).
  { apply mem_false. intros a Ha' ->. apply missing_dirs_short in Ha'.
    pose proof (folder_shorter _ _ Hi). lia. }
  assert (Hin : mem (prefix_to i path) made = true).
  { apply mem_In. apply missing_dirs_self. exact Hf. }
  rewrite (open_for_write_ok path i); [| |exact Hi|].
  - unfold print, log, set_entries, checkpoint_of. cbn.
    rewrite <- !app_assoc. reflexivity.
  - unfold is_dir. cbn. rewrite lookup_mkdirs, Hnot.
    unfold is_entry in Hp. destruct (entries w !! path); [discriminate|reflexivity].
  - unfold is_dir. cbn. rewrite lookup_mkdirs, Hin. reflexivity.
Qed.

(** [path.rindex] raising. *)
Lemma save_model_rindex_run model path overwrite w :
  rindex sep path = None ->
  save_model model path overwrite w = (Raise ValueError, w).
Proof.
  intros Hn. unfold save_model, bind, lift. rewrite Hn. reflexivity.
Qed.

(** C10.  On a path without a backslash [save_model] raises ValueError
    (from [path.rindex]) with the world untouched: no file-system check,
    no directory made, nothing written or printed. *)
Theorem save_model_no_backslash (model : RoCNN) (path : string)
  (overwrite : bool) (w : world) :
  ~ In sep (list_ascii_of_string path) ->
  save_model model path overwrite w = (Raise ValueError, w).
Proof.
  intros Hn. apply save_model_rindex_run. apply rindex_None. exact Hn.
Qed.

(** C5, as amended.  When the path has a backslash, the folder before
    its last backslash exists and a file stands at the path,
    [save_model(model, path, overwrite=False)] returns without error
    after its two existence checks: the file system is as it was, and
    nothing is written or printed. *)
Theorem save_model_no_clobber (model : RoCNN) (path : string) (i : nat)
  (w : world) :
  rindex sep path = Some i ->
  is_entry w (prefix_to i path) = true ->
  is_file w path = true ->
  exists w', save_model model path false w = (Ok tt, w')
    /\ entries w' = entries w
    /\ heap w' = heap w
    /\ trace w' = trace w ++ [EvExists (prefix_to i path); EvExists path].
Proof.
  intros Hi Hf Hp. apply is_file_entry in Hp.
  rewrite (save_model_skip_run _ _ i) by assumption.
  eexists. split; [reflexivity|]. auto.
Qed.

(** C7, as amended.  When the path has a backslash, the folder before
    its last backslash is a directory and a file stands at the path,
    [save_model(model, path, overwrite=True)] replaces the file by the
    pickle of the model's parameter values. *)
Theorem save_model_overwrite (model : RoCNN) (path : string) (i : nat)
  (w : world) (pv : tref -> tensor) :
  rindex sep path = Some i ->
  is_dir w (prefix_to i path) = true ->
  is_file w path = true ->
  has_params w model pv ->
  exists w', save_model model path true w = (Ok tt, w')
    /\ entries w'
       = <[path := File (Pickled (values_of pv (state_dict model)))]> (entries w)
    /\ heap w' = heap w
    /\ trace w'
       = trace w ++ [EvExists (prefix_to i path); EvExists path; EvWrite path;
                     EvPrint ("model saved to " +:+ dquote +:+ path +:+
                              dquote +:+ ".")].
Proof.
  intros Hi Hf Hp Hm.
  rewrite (save_model_write_run _ _ i _ pv); auto using is_file_not_dir.
  eexists. split; [reflexivity|]. auto.
Qed.


End SaveModel.

(** ** RoCNN.__init__ *)

Lemma keys_state_dict m : keys (state_dict m) = param_names.
Proof. reflexivity. Qed.

Lemma new_parameter_at s n w h :
  new_parameter s (set_rng_pos n (grow w h))
  = (Ok (TRef (length (heap w) + length h) s),
     set_rng_pos (n + numel s) (grow w (h ++ [draw (rng w) n (numel s)]))).
Proof.
  unfold new_parameter, set_rng_pos, grow, set_heap. cbn.
  rewrite length_app, app_assoc. reflexivity.
Qed.

Lemma RoCNN_init_run w :
  RoCNN_init w
  = (Ok (init_model (length (heap w))),
     set_rng_pos (pos_after (rng_pos w) param_shapes)
       (grow w (init_cells (rng w) (rng_pos w)))).
Proof.
  assert (Hw : w = set_rng_pos (rng_pos w) (grow w [])).
  { rewrite grow_nil. destruct w; reflexivity. }
  etransitivity; [exact (f_equal RoCNN_init Hw)|].
  unfold RoCNN_init, Conv2d_init, Linear_init, bind, ret.
  repeat (rewrite new_parameter_at; cbn [app length]).
  reflexivity.
Qed.

Lemma draw_length g pos n : length (draw g pos n) = n.
Proof. unfold draw. rewrite length_map, length_seq. reflexivity. Qed.

Lemma cells_from_shapes g shapes : forall pos,
  Forall2 (fun d s => length d = numel s) (cells_from g pos shapes) shapes.
Proof.
  induction shapes as [|s shapes IH]; intros pos; cbn [cells_from];
    constructor; auto using draw_length.
Qed.

Lemma arch_ok_init base : arch_ok (init_model base).
Proof. repeat split. Qed.

(** ** load_state_dict *)

Lemma dict_get_None {A} k (d : list (string * A)) :
  dict_get k d = None <-> ~ In k (keys d).
Proof.
  induction d as [|[k' v] d IH]; cbn [dict_get keys map fst In].
  - tauto.
  - destruct (String.eqb_spec k k') as [->|Hne].
    + split; [discriminate|]. intros Hn. exfalso. apply Hn. left. reflexivity.
    + rewrite IH. unfold keys. split.
      * intros Hn [E|Hin]; [congruence|contradiction].
      * intros Hn Hin. apply Hn. right. exact Hin.
Qed.

(** The loop of load_state_dict never raises on valid parameters; it
    reports exactly the keys it did not find, and leaves in each
    parameter found with the right sizes the data of the loaded tensor. *)
Lemma load_params_run own sd : forall W,
  Forall (fun kt => stor (snd kt) < length (heap W)) own ->
  exists ms mm h',
    load_params own sd W = (Ok (ms, mm), set_heap h' W)
    /\ length h' = length (heap W)
    /\ (forall k, In k ms <-> In k (keys own) /\ dict_get k sd = None)
    /\ (forall l, ~ In l (stors own) -> h' !! l = heap W !! l)
    /\ (NoDup (stors own) ->
        Forall (fun kt => forall v,
                  dict_get (fst kt) sd = Some v -> shape v = tshape (snd kt) ->
                  h' !! stor (snd kt) = Some (data v)) own)
    /\ (Forall (fun kt => forall v,
                  dict_get (fst kt) sd = Some v -> shape v = tshape (snd kt))
               own -> mm = []).
Proof.
  induction own as [|[k p] own IH]; intros W Hv.
  - exists [], [], (heap W). split; [destruct W; reflexivity|].
    split; [reflexivity|]. split; [intros k; cbn; tauto|].
    split; [auto|]. split; [intros _; constructor|auto].
  - apply Forall_cons in Hv. destruct Hv as [Hp Hv]. cbn [snd] in Hp.
    cbn [load_params]. unfold bind at 1.
    destruct (dict_get k sd) as [v|] eqn:Ek.
    + case_bool_decide as Hs.
      * (* found, right sizes: copied *)
        unfold bind at 1, write_data.
        destruct (Nat.ltb_spec (stor p) (length (heap W))) as [_|?]; [|lia].
        cbn [ret]. set (W1 := set_heap _ W).
        destruct (IH W1) as (ms & mm & h' & E & Hl & Hms & Hfr & Hnd & Hmm).
        { eapply Forall_impl; [exact Hv|]. intros kt. cbn.
          rewrite length_insert. auto. }
        unfold bind. rewrite E. cbn [ret fst snd app].
        exists ms, mm, h'. split; [reflexivity|].
        split; [rewrite Hl; apply length_insert|].
        split.
        { intros k0. rewrite Hms. cbn [keys map fst In]. split.
          - intros [? ?]. auto.
          - intros [[<-|?] Hn]; [congruence|auto]. }
        split.
        { intros l Hl'. cbn [stors map snd In] in Hl'.
          rewrite Hfr by tauto. cbn. apply list_lookup_insert_ne. tauto. }
        split.
        { intros Hno. cbn [stors map snd] in Hno. apply NoDup_cons in Hno.
          destruct Hno as [Hnotin Hno]. apply Forall_cons. split.
          - cbn [fst snd]. intros v' Ev' _. rewrite Ek in Ev'.
            injection Ev' as <-. rewrite Hfr.
            + cbn. apply list_lookup_insert_eq. exact Hp.
            + rewrite <- list_elem_of_In. exact Hnotin.
          - apply Hnd. exact Hno. }
        { intros Hall. apply Forall_cons in Hall. apply Hmm. tauto. }
      * (* found, other sizes: mismatched *)
        cbn [ret].
        destruct (IH W Hv) as (ms & mm & h' & E & Hl & Hms & Hfr & Hnd & Hmm).
        unfold bind. rewrite E. cbn [ret fst snd app].
        exists ms, (k :: mm), h'. split; [reflexivity|]. split; [exact Hl|].
        split.
        { intros k0. rewrite Hms. cbn [keys map fst In]. split.
          - intros [? ?]. auto.
          - intros [[<-|?] Hn]; [congruence|auto]. }
        split.
        { intros l Hl'. cbn [stors map snd In] in Hl'. apply Hfr. tauto. }
        split.
        { intros Hno. cbn [stors map snd] in Hno. apply NoDup_cons in Hno.
          destruct Hno as [Hnotin Hno]. apply Forall_cons. split.
          - cbn [fst snd]. intros v' Ev' Hs'. rewrite Ek in Ev'.
            injection Ev' as <-. contradiction.
          - apply Hnd. exact Hno. }
        { intros Hall. apply Forall_cons in Hall. destruct Hall as [Hh _].
          exfalso. apply Hs. apply (Hh v Ek). }
    + (* not found: missing *)
      cbn [ret].
      destruct (IH W Hv) as (ms & mm & h' & E & Hl & Hms & Hfr & Hnd & Hmm).
      unfold bind. rewrite E. cbn [ret fst snd app].
      exists (k :: ms), mm, h'. split; [reflexivity|]. split; [exact Hl|].
      split.
      { intros k0. cbn [keys map fst In]. rewrite Hms. split.
        - intros [<-|[? ?]]; auto.
        - intros [[<-|?] Hn]; auto. }
      split.
      { intros l Hl'. cbn [stors map snd In] in Hl'. apply Hfr. tauto. }
      split.
      { intros Hno. cbn [stors map snd] in Hno. apply NoDup_cons in Hno.
        destruct Hno as [Hnotin Hno]. apply Forall_cons. split.
        - cbn [fst snd]. intros v' Ev'. congruence.
        - apply Hnd. exact Hno. }
      { intros Hall. apply Forall_cons in Hall. apply Hmm. tauto. }
Qed.

(** ** load_model *)

Lemma init_cells_length g pos : length (init_cells g pos) = 12.
Proof. reflexivity. Qed.

(** The parameters [RoCNN()] makes are the storages it appends. *)
Lemma init_params_at w pre g pos :
  heap w = pre ++ init_cells g pos ->
  Forall2 (fun kt ds =>
             stor (snd kt) < length (heap w)
             /\ tshape (snd kt) = snd ds
             /\ heap w !! stor (snd kt) = Some (fst ds))
          (state_dict (init_model (length pre)))
          (zip (init_cells g pos) param_shapes).
Proof.
  intros Hh. rewrite Hh, length_app, init_cells_length.
  unfold state_dict, init_model, init_cells, param_shapes.
  cbn [cells_from zip zip_with Conv2d.weight Conv2d.bias Linear.weight
       Linear.bias cv1 cv2 cv3 fc1 fc2 fc3].
  repeat (apply List.Forall2_cons;
          [cbn [snd fst stor tshape]; split; [lia|]; split; [reflexivity|];
           rewrite lookup_app_r by lia;
           match goal with
           | |- context [length pre + ?k - length pre] =>
               replace (length pre + k - length pre) with k by lia
           end; reflexivity|]).
  apply List.Forall2_nil.
Qed.

Lemma stors_init base : stors (state_dict (init_model base)) = seq base 12.
Proof.
  cbn. rewrite Nat.add_0_r.
  repeat (f_equal; try lia).
Qed.

Lemma params_ok_init w pre g pos :
  heap w = pre ++ init_cells g pos -> params_ok w (init_model (length pre)).
Proof.
  intros Hh. pose proof (init_params_at w pre g pos Hh) as Hp.
  pose proof (cells_from_shapes g param_shapes pos) as Hc.
  unfold state_dict, init_model, init_cells, param_shapes in *.
  cbn [cells_from zip zip_with Conv2d.weight Conv2d.bias Linear.weight
       Linear.bias cv1 cv2 cv3 fc1 fc2 fc3] in *.
  repeat match goal with
         | Hx : Forall2 _ (_ :: _) (_ :: _) |- _ =>
             apply Forall2_cons in Hx; destruct Hx as [? Hx]
         end.
  cbn [fst snd stor tshape] in *.
  unfold params_ok, conv_params_ok, lin_params_ok, param_ok.
  cbn [Conv2d.weight Conv2d.bias Linear.weight Linear.bias cv1 cv2 cv3 fc1
       fc2 fc3 Conv2d.in_channels Conv2d.out_channels Conv2d.kernel_size
       Linear.in_features Linear.out_features stor tshape].
  repeat split; try reflexivity; eexists; (split; [intuition eauto|]); assumption.
Qed.

(** The same for any twelve storages of the declared lengths, wherever
    they stand in the heap. *)
Lemma params_ok_cells w pre cells post :
  heap w = pre ++ cells ++ post ->
  Forall2 (fun d s => length d = numel s) cells param_shapes ->
  params_ok w (init_model (length pre)).
Proof.
  intros Hh Hc. apply params_ok_shaped; [apply arch_ok_init|].
  unfold shaped, state_dict, init_model, param_shapes in *.
  cbn [Conv2d.weight Conv2d.bias Linear.weight Linear.bias cv1 cv2 cv3 fc1
       fc2 fc3].
  repeat match goal with
         | Hx : Forall2 _ _ (_ :: _) |- _ =>
             apply Forall2_cons_inv_r in Hx;
             destruct Hx as (? & ? & ? & Hx & ->)
         | Hx : Forall2 _ _ [] |- _ => apply Forall2_nil_inv_r in Hx; subst
         end.
  repeat (apply List.Forall2_cons;
          [cbn [snd]; split; [reflexivity|]; eexists; split;
           [cbn [stor]; rewrite Hh; rewrite lookup_app_r by lia;
            match goal with
            | |- context [length pre + ?k - length pre] =>
                replace (length pre + k - length pre) with k by lia
            end; reflexivity
           |assumption]|]).
  apply List.Forall2_nil.
Qed.

Lemma model_ok_init w : model_ok (after_init w) (init_model (length (heap w))).
Proof.
  split; [apply arch_ok_init|]. apply (params_ok_init _ _ (rng w) (rng_pos w)).
  reflexivity.
Qed.

Section LoadModel.
Context `{Float32Arith}.

(** [load_model] on a path where nothing stands, with an answer on the
    console. *)
Lemma load_model_missing_run path w ans rest :
  is_entry w path = false -> stdin w = ans :: rest ->
  let w0 := set_stdin rest (log [EvExists path; EvInput (prompt_of path)] w) in
  load_model path w
  = if mem ans ["y"; "Y"]
    then (Ok (init_model (length (heap w))),
          log [EvPrint "new model created"] (after_init w0))
    else (Raise FileNotFoundError, after_init w0).
Proof.
  intros He Hin w0. unfold load_model. fold (prompt_of path).
  fold (loaded_notice path).
  unfold bind at 1. unfold path_exists. rewrite He. cbn [negb].
  unfold bind at 1. unfold bind at 1. unfold input. cbn [stdin log].
  rewrite Hin. cbn [ret]. rewrite log_log. cbn [app]. fold w0.
  unfold bind at 1. rewrite RoCNN_init_run. fold (after_init w0).
  change (length (heap w0)) with (length (heap w)).
  destruct (mem ans ["y"; "Y"]).
  - reflexivity.
  - unfold bind at 1. unfold torch_load.
    change (entries (after_init w0)) with (entries w).
    unfold is_entry in He. destruct (entries w !! path); [discriminate|].
    reflexivity.
Qed.

(** C4.  When nothing stands at the path, [load_model] asks on the
    console.  On the answer "y" or "Y" it returns the model [RoCNN()]
    has just built, its parameters drawn from the generator, and no file
    is opened: the events are the existence check, the prompt and the
    notice.  On any other answer it raises FileNotFoundError (from
    torch.load) and returns no model. *)
Theorem load_model_missing (path : string) (w : world) (ans : string)
  (rest : list string) :
  is_entry w path = false -> stdin w = ans :: rest ->
  (ans = "y" \/ ans = "Y" ->
   exists m w', load_model path w = (Ok m, w')
     /\ model_ok w' m
     /\ heap w' = heap w ++ init_cells (rng w) (rng_pos w)
     /\ stors (state_dict m) = seq (length (heap w)) 12
     /\ entries w' = entries w
     /\ trace w' = trace w ++ [EvExists path; EvInput (prompt_of path);
                               EvPrint "new model created"])
  /\ (ans <> "y" -> ans <> "Y" ->
      exists w', load_model path w = (Raise FileNotFoundError, w')
        /\ entries w' = entries w
        /\ trace w' = trace w ++ [EvExists path; EvInput (prompt_of path)]).
Proof.
  intros He Hin. rewrite (load_model_missing_run path w ans rest He Hin).
  cbv zeta. split.
  - intros Hy. replace (mem ans ["y"; "Y"]) with true.
    2:{ symmetry. apply mem_In. cbn. destruct Hy; auto. }
    eexists _, _. split; [reflexivity|].
    split.
    { split; [apply arch_ok_init|].
      apply (params_ok_init _ _ (rng w) (rng_pos w)). reflexivity. }
    split; [reflexivity|]. split; [apply stors_init|].
    split; [reflexivity|]. cbn. rewrite <- app_assoc. reflexivity.
  - intros Hn1 Hn2. replace (mem ans ["y"; "Y"]) with false.
    2:{ symmetry. apply mem_false. cbn. intros a [<-|[<-|[]]]; congruence. }
    eexists. split; [reflexivity|]. split; reflexivity.
Qed.

(** [load_model] on a path where a pickled mapping stands. *)
Lemma load_model_existing_run path w sd :
  entries w !! path = Some (File (Pickled sd)) ->
  load_model path w
  = match load_state_dict (init_model (length (heap w))) sd
            (log [EvRead path] (after_init (log [EvExists path] w))) with
    | (Ok _, w') =>
        (Ok (init_model (length (heap w))),
         log [EvPrint (loaded_notice path)] w')
    | (Raise e, w') => (Raise e, w')
    end.
Proof.
  intros He. unfold load_model. fold (prompt_of path).
  fold (loaded_notice path).
  unfold bind at 1. unfold path_exists. unfold is_entry. rewrite He.
  cbn [negb]. unfold bind at 1. cbn [ret].
  unfold bind at 1. rewrite RoCNN_init_run.
  fold (after_init (log [EvExists path] w)).
  change (length (heap (log [EvExists path] w))) with (length (heap w)).
  unfold bind at 1. unfold torch_load.
  change (entries (after_init (log [EvExists path] w))) with (entries w).
  rewrite He. unfold bind, print, ret.
  destruct (load_state_dict _ sd _) as [[[]|e] w']; reflexivity.
Qed.

Lemma Forall2_left {A B} (P : A -> Prop) (R : A -> B -> Prop) l k :
  (forall x y, R x y -> P x) -> Forall2 R l k -> Forall P l.
Proof. intros HR HF. induction HF; constructor; eauto. Qed.

Lemma Forall2_right {A B} (P : B -> Prop) (R : A -> B -> Prop) l k :
  (forall x y, R x y -> P y) -> Forall2 R l k -> Forall P k.
Proof. intros HR HF. induction HF; constructor; eauto. Qed.

Lemma Forall2_impl' {A B} (P Q : A -> B -> Prop) l k :
  (forall x y, P x y -> Q x y) -> Forall2 P l k -> Forall2 Q l k.
Proof. intros HPQ HF. induction HF; constructor; eauto. Qed.

Lemma init_valid w es :
  Forall (fun kt => stor (snd kt) < length (heap (log es (after_init w))))
         (state_dict (init_model (length (heap w)))).
Proof.
  pose proof (init_params_at (after_init w) (heap w) (rng w) (rng_pos w)
                eq_refl) as Hp.
  revert Hp. apply Forall2_left. intros kt ds (Hlt & _). exact Hlt.
Qed.

(** C6.  When the file at the path holds a pickled mapping whose key set
    is not the set of parameter names of [RoCNN], [load_model] raises
    the error of [load_state_dict], which lists a missing or an
    unexpected key; the result is the exception, and no model. *)
Theorem load_model_key_mismatch (path : string) (w : world)
  (sd : list (string * tensor)) :
  entries w !! path = Some (File (Pickled sd)) ->
  ~ (forall k, In k (keys sd) <-> In k param_names) ->
  exists missing unexpected mismatched w',
    load_model path w
    = (Raise (StateDictError missing unexpected mismatched), w')
    /\ (missing <> [] \/ unexpected <> []).
Proof.
  intros He Hne. rewrite (load_model_existing_run path w sd He).
  unfold load_state_dict, bind.
  destruct (load_params_run (state_dict (init_model (length (heap w)))) sd _
              (init_valid (log [EvExists path] w) [EvRead path]))
    as (ms & mm & h' & E & _ & Hms & _).
  rewrite E. cbn [fst snd]. rewrite keys_state_dict in *.
  set (un := List.filter _ (keys sd)).
  assert (Hun : forall k, In k un <-> In k (keys sd) /\ ~ In k param_names).
  { intros k. unfold un. rewrite filter_In, negb_true_iff.
    split; intros [H1 H2]; (split; [exact H1|]).
    - intros Hin. apply mem_In in Hin. congruence.
    - destruct (mem k param_names) eqn:Em; [|reflexivity].
      exfalso. apply H2. apply mem_In. exact Em. }
  assert (Hbad : ms <> [] \/ un <> []).
  { destruct ms as [|k0 ms]; [|left; discriminate].
    destruct un as [|k0 un']; [|right; discriminate].
    exfalso. apply Hne. intros k. split.
    - intros Hk. destruct (mem k param_names) eqn:Em; [apply mem_In; exact Em|].
      exfalso. apply (proj2 (Hun k)). split; [exact Hk|].
      rewrite <- mem_In. congruence.
    - intros Hk. destruct (dict_get k sd) as [v|] eqn:Ek.
      + destruct (mem k (keys sd)) eqn:Em; [apply mem_In; exact Em|].
        exfalso. assert (Hnone : dict_get k sd = None).
        { apply dict_get_None. rewrite <- mem_In. congruence. }
        congruence.
      + exfalso. apply (proj2 (Hms k)). auto. }
  exists ms, un, mm. eexists. split; [|exact Hbad].
  destruct ms; [destruct un; [destruct Hbad; congruence|]|]; reflexivity.
Qed.

End LoadModel.

(** ** Saving, then loading *)

Lemma value_of_same_heap w w' t :
  heap w' = heap w -> value_of w' t = value_of w t.
Proof. unfold value_of. intros ->. reflexivity. Qed.

Lemma values_of_ext pv pv' obj :
  (forall t, pv t = pv' t) -> values_of pv obj = values_of pv' obj.
Proof.
  intros He. unfold values_of. apply map_ext. intros kt. rewrite He.
  reflexivity.
Qed.

Section RoundTrip.
Context `{Float32Arith}.

Lemma forward_value_invalid m x w :
  heap w !! stor x = None -> forward_value m x w = Raise InvalidHandle.
Proof.
  intros Hx. unfold forward_value, forward, conv_relu, Conv2d_forward.
  unfold bind at 1 2 3. unfold read_tensor at 1. rewrite Hx. reflexivity.
Qed.

(** Models of one architecture whose parameters have the same values
    compute the same function. *)
Lemma forward_fn_agree m m' pv pv' X :
  arch_ok m -> arch_ok m' ->
  Forall2 (fun kt kt' => pv (snd kt) = pv' (snd kt'))
          (state_dict m) (state_dict m') ->
  forward_fn m pv X = forward_fn m' pv' X.
Proof.
  intros Ha Ha' Hv. arch_equations Ha. arch_equations Ha'.
  unfold state_dict in Hv. split_Forall2. cbn [snd] in *.
  unfold forward_fn, stages_fn, conv_relu_fn, linear_relu_fn, conv2d_of,
    linear_of, max_pool2d_of.
  repeat match goal with Hx : _ = _ |- _ => rewrite Hx; clear Hx end.
  reflexivity.
Qed.

(** When [save_model] returns, either it wrote the checkpoint or the
    path existed and overwriting was not asked for; the heap is as it
    was. *)
Lemma save_model_inv m path overwrite w w1 pv :
  has_params w m pv ->
  save_model m path overwrite w = (Ok tt, w1) ->
  heap w1 = heap w
  /\ ((overwrite = false /\ is_entry w path = true)
      \/ entries w1 !! path = Some (checkpoint_of pv m)).
Proof.
  intros Hm.
  assert (Htail : forall W s, heap W = heap w ->
    (torch_save (state_dict m) path ;; print s) W = (Ok tt, w1) ->
    heap w1 = heap w /\ entries w1 !! path = Some (checkpoint_of pv m)).
  { intros W s HW. unfold bind. rewrite (torch_save_run _ pv).
    2:{ apply (has_params_same_heap w); assumption. }
    destruct (open_for_write path W) as [[[]|e] W']; [|discriminate].
    unfold print. intros E. injection E as <-. cbn.
    split; [exact HW|]. apply lookup_insert_eq. }
  unfold save_model. cbv zeta.
  destruct (rindex sep path) as [i|]; [|discriminate].
  unfold bind at 1. unfold lift. unfold bind at 1. unfold path_exists at 1.
  destruct (is_entry w (prefix_to i path)); cbn [negb].
  - unfold bind at 1. unfold path_exists.
    change (is_entry (log _ w) path) with (is_entry w path).
    destruct (is_entry w path) eqn:Ep.
    + destruct overwrite; cbn [negb].
      * intros E. apply Htail in E; [|reflexivity]. tauto.
      * unfold ret. intros E. injection E as <-. auto.
    + intros E. apply Htail in E; [|reflexivity]. tauto.
  - unfold bind at 1.
    destruct (makedirs (prefix_to i path) _) as [[[]|e] W] eqn:Em;
      [|discriminate].
    assert (HW : heap W = heap w).
    { revert Em. unfold makedirs.
      repeat match goal with
             | |- context [if ?b then _ else _] => destruct b
             end; try discriminate.
      intros E. injection E as <-. reflexivity. }
    unfold bind at 1. unfold print at 1.
    intros E. apply Htail in E; [|exact HW]. tauto.
Qed.

Lemma dict_get_values_of pv k obj :
  dict_get k (values_of pv obj) = option_map pv (dict_get k obj).
Proof.
  induction obj as [|[k' t] obj IH]; [reflexivity|].
  cbn [values_of map dict_get fst snd]. destruct (String.eqb k k'); auto.
Qed.

(** [load_model] on the checkpoint of a model: the new model's
    parameters get the saved values, and nothing that was in the heap
    changes. *)
Lemma load_model_checkpoint path w1 m :
  model_ok w1 m ->
  entries w1 !! path = Some (checkpoint_of (value_of w1) m) ->
  exists w2,
    load_model path w1 = (Ok (init_model (length (heap w1))), w2)
    /\ length (heap w2) = length (heap w1) + 12
    /\ (forall l, l < length (heap w1) -> heap w2 !! l = heap w1 !! l)
    /\ Forall2 (fun kt kt' =>
                  heap w2 !! stor (snd kt') = Some (data (value_of w1 (snd kt)))
                  /\ tshape (snd kt') = tshape (snd kt))
               (state_dict m) (state_dict (init_model (length (heap w1)))).
Proof.
  intros [Ha Hp] He. unfold checkpoint_of in He.
  rewrite (load_model_existing_run _ _ _ He).
  apply (params_ok_shaped _ _ Ha) in Hp. unfold shaped in Hp.
  set (sd := values_of (value_of w1) (state_dict m)) in *.
  set (W := log [EvRead path] (after_init (log [EvExists path] w1))).
  destruct (load_params_run (state_dict (init_model (length (heap w1)))) sd W
              (init_valid (log [EvExists path] w1) [EvRead path]))
    as (ms & mm & h' & E & Hl & Hms & Hfr & Hnd & Hmm).
  unfold load_state_dict, bind. rewrite E. cbn [fst snd].
  (* the sizes of the saved tensors *)
  assert (Hget : Forall2 (fun kt kt' =>
            dict_get (fst kt') sd = Some (value_of w1 (snd kt))
            /\ tshape (snd kt') = tshape (snd kt))
            (state_dict m) (state_dict (init_model (length (heap w1))))).
  { unfold state_dict, param_shapes in Hp. split_Forall2.
    unfold state_dict, init_model.
    cbn [cv1 cv2 cv3 fc1 fc2 fc3 Conv2d.weight Conv2d.bias Linear.weight
         Linear.bias].
    repeat (apply List.Forall2_cons;
            [cbn [fst snd tshape]; split;
             [unfold sd; rewrite dict_get_values_of; reflexivity
             |match goal with
              | Hx : param_ok _ ?t _ |- _ = tshape ?t =>
                  symmetry; exact (proj1 Hx)
              end]|]).
    apply List.Forall2_nil. }
  assert (Ems : ms = []).
  { destruct ms as [|k0 ms]; [reflexivity|]. exfalso.
    destruct (proj1 (Hms k0) (or_introl eq_refl)) as [Hin Hnone].
    rewrite keys_state_dict in Hin. clear - Hin Hnone Hget.
    assert (Hall : Forall (fun k => dict_get k sd <> None) param_names).
    { rewrite <- (keys_state_dict (init_model (length (heap w1)))).
      unfold keys. apply Forall_map. revert Hget. apply Forall2_right.
      intros kt kt' [-> _]. discriminate. }
    rewrite Forall_forall in Hall. apply (Hall k0); [|exact Hnone].
    apply list_elem_of_In. exact Hin. }
  assert (Emm : mm = []).
  { apply Hmm. revert Hget. apply Forall2_right.
    intros kt kt' [Eg Es] v Ev. rewrite Eg in Ev. injection Ev as <-.
    rewrite Es. reflexivity. }
  subst ms mm.
  assert (Eun : List.filter
                  (fun k => negb (mem k (keys (state_dict
                                   (init_model (length (heap w1)))))))
                  (keys sd) = []) by reflexivity.
  rewrite Eun. cbn [ret].
  eexists. split; [reflexivity|]. cbn [heap log set_heap].
  split.
  { rewrite Hl. unfold W, after_init. cbn. rewrite length_app.
    reflexivity. }
  split.
  { intros l Hlt. rewrite Hfr.
    - unfold W, after_init. cbn. apply lookup_app_l. exact Hlt.
    - rewrite stors_init, in_seq. lia. }
  specialize (Hnd ltac:(rewrite stors_init; apply NoDup_ListNoDup, seq_NoDup)).
  revert Hget Hnd. generalize (state_dict (init_model (length (heap w1)))).
  generalize (state_dict m).
  induction 1 as [|kt kt' l l' [Eg Es] _ IH]; intros Hn;
    [apply List.Forall2_nil|].
  apply Forall_cons in Hn. destruct Hn as [Hh Hn].
  apply List.Forall2_cons; [|apply IH; exact Hn].
  split; [|exact Es]. apply Hh; [exact Eg|]. rewrite Es. reflexivity.
Qed.

Lemma Forall2_join {A B C} (R : A -> B -> Prop) (S : A -> C -> Prop) l k :
  Forall2 R l k -> forall j, Forall2 S l j ->
  Forall2 (fun y z => exists x, R x y /\ S x z) k j
  /\ Forall2 (fun x y => exists z, R x y /\ S x z) l k.
Proof.
  induction 1 as [|x y l k Hxy _ IH]; intros j HS; inversion HS; subst.
  - split; constructor.
  - match goal with Hx : Forall2 S l _ |- _ => destruct (IH _ Hx) end.
    split; constructor; eauto.
Qed.

(** A parameter that received the data of a saved one. *)
Lemma loaded_param w1 w2 t t' s :
  param_ok w1 t s ->
  (forall l, l < length (heap w1) -> heap w2 !! l = heap w1 !! l) ->
  heap w2 !! stor t' = Some (data (value_of w1 t)) ->
  tshape t' = tshape t ->
  param_ok w2 t' s
  /\ value_of w2 t' = value_of w1 t
  /\ value_of w2 t = value_of w1 t.
Proof.
  intros (Hs & d & Hd & Hl) Hfr Ht' Hts.
  assert (Hv : value_of w1 t = Tensor (tshape t) d).
  { unfold value_of. rewrite Hd. reflexivity. }
  rewrite Hv in *. cbn [data] in Ht'. split; [|split].
  - split; [congruence|]. exists d. auto.
  - unfold value_of. rewrite Ht', Hts. reflexivity.
  - unfold value_of. rewrite Hfr, Hd; [reflexivity|].
    eapply lookup_lt_Some. exact Hd.
Qed.

(** Loading the checkpoint of a model gives a model that computes the
    same function. *)
Lemma load_checkpoint_forward path w1 m :
  model_ok w1 m ->
  entries w1 !! path = Some (checkpoint_of (value_of w1) m) ->
  exists m' w2,
    load_model path w1 = (Ok m', w2)
    /\ model_ok w2 m'
    /\ (forall l, l < length (heap w1) -> heap w2 !! l = heap w1 !! l)
    /\ Forall2 (fun kt kt' =>
                  fst kt' = fst kt
                  /\ value_of w2 (snd kt') = value_of w1 (snd kt))
               (state_dict m) (state_dict m')
    /\ forall x, forward_value m' x w2 = forward_value m x w2.
Proof.
  intros [Ha Hp] He1.
  pose proof (proj1 (params_ok_shaped w1 m Ha) Hp) as Hsh1.
  destruct (load_model_checkpoint path w1 m (conj Ha Hp) He1)
    as (w2 & E & Hlen & Hfr & Hv).
  set (m' := init_model (length (heap w1))) in *.
  destruct (Forall2_join _ _ _ _ Hv _ Hsh1) as [Hk Hl].
  assert (Hsh2' : shaped w2 m').
  { revert Hk. apply Forall2_impl'. intros kt' s (kt & [Hd Hts] & Hpo).
    apply (loaded_param w1 w2 (snd kt) (snd kt') s); assumption. }
  assert (Hsh2 : shaped w2 m).
  { revert Hsh1. apply shaped_mono. intros l d Hd. rewrite Hfr; [exact Hd|].
    eapply lookup_lt_Some. exact Hd. }
  assert (Hag : Forall2 (fun kt kt' =>
                  value_of w2 (snd kt') = value_of w1 (snd kt)
                  /\ value_of w2 (snd kt) = value_of w1 (snd kt))
                  (state_dict m) (state_dict m')).
  { revert Hl. apply Forall2_impl'. intros kt kt' (s & [Hd Hts] & Hpo).
    apply (loaded_param w1 w2 (snd kt) (snd kt') s); assumption. }
  pose proof (arch_ok_init (length (heap w1))) as Ha'. fold m' in Ha'.
  exists m', w2. split; [exact E|]. split.
  { split; [exact Ha'|]. apply params_ok_shaped; assumption. }
  split; [exact Hfr|]. split.
  { assert (Hkeys : Forall2 (fun kt kt' : string * tref => fst kt' = fst kt)
                      (state_dict m) (state_dict m')).
    { unfold state_dict. repeat (apply List.Forall2_cons; [reflexivity|]).
      apply List.Forall2_nil. }
    revert Hkeys Hag. generalize (state_dict m) (state_dict m').
    induction 1 as [|kt kt' l l' Ek _ IH]; intros Hag;
      [apply List.Forall2_nil|].
    apply Forall2_cons in Hag. destruct Hag as [[Hx _] Hag].
    apply List.Forall2_cons; [|apply IH; exact Hag].
    split; [exact Ek|exact Hx]. }
  intros x. destruct (heap w2 !! stor x) as [d|] eqn:Ex.
  - assert (Hx : holds w2 x (Tensor (tshape x) d)) by (split; auto).
    rewrite (forward_value_fn m' x w2 (value_of w2) _
               (params_ok_has_params _ _
                  (proj2 (params_ok_shaped w2 m' Ha') Hsh2')) Hx).
    rewrite (forward_value_fn m x w2 (value_of w2) _
               (params_ok_has_params _ _
                  (proj2 (params_ok_shaped w2 m Ha) Hsh2)) Hx).
    symmetry. apply forward_fn_agree; [exact Ha|exact Ha'|].
    revert Hag. apply Forall2_impl'. intros kt kt' [-> ->]. reflexivity.
  - rewrite !forward_value_invalid by exact Ex. reflexivity.
Qed.

(** C1, as amended.  When [save_model] returns and the path did not
    exist before the call or overwriting was asked for, [load_model] on
    the same path returns a model with the parameter values of the saved
    one, whose [forward] returns on every input the value the saved
    model's [forward] returns. *)
Theorem save_load_round_trip (m : RoCNN) (path : string) (overwrite : bool)
  (w w1 : world) :
  model_ok w m ->
  overwrite = true \/ is_entry w path = false ->
  save_model m path overwrite w = (Ok tt, w1) ->
  exists m' w2,
    load_model path w1 = (Ok m', w2)
    /\ model_ok w2 m'
    /\ Forall2 (fun kt kt' =>
                  fst kt' = fst kt
                  /\ value_of w2 (snd kt') = value_of w (snd kt))
               (state_dict m) (state_dict m')
    /\ forall x, forward_value m' x w2 = forward_value m x w2.
Proof.
  intros [Ha Hp] How Hs.
  destruct (save_model_inv m path overwrite w w1 (value_of w)
              (params_ok_has_params _ _ Hp) Hs) as [Hh [[-> He]|He]].
  { destruct How; congruence. }
  pose proof (proj1 (params_ok_shaped w m Ha) Hp) as Hsh.
  assert (Hsh1 : shaped w1 m).
  { revert Hsh. apply shaped_mono. rewrite Hh. auto. }
  assert (He1 : entries w1 !! path = Some (checkpoint_of (value_of w1) m)).
  { rewrite He. unfold checkpoint_of. do 3 f_equal. apply values_of_ext.
    intros t. symmetry. apply value_of_same_heap. exact Hh. }
  destruct (load_checkpoint_forward path w1 m
              (conj Ha (proj2 (params_ok_shaped w1 m Ha) Hsh1)) He1)
    as (m' & w2 & E & Hok & _ & Hv & Hf).
  exists m', w2. split; [exact E|]. split; [exact Hok|]. split; [|exact Hf].
  revert Hv. apply Forall2_impl'. intros kt kt' [Ek Ev].
  split; [exact Ek|]. rewrite Ev. apply value_of_same_heap. exact Hh.
Qed.

End RoundTrip.

(** * The theorems at concrete inputs *)

(** ** Running the definitions *)

Example rindex_backslash : rindex sep "models\m.pth" = Some 6.
Proof. reflexivity. Qed.

Example rindex_bare : rindex sep "model.pth" = None.
Proof. reflexivity. Qed.

Example rindex_slashes : rindex sep "models/run/m.pth" = None.
Proof. reflexivity. Qed.

Example folder_of_path : prefix_to 6 "models\m.pth" = "models".
Proof. reflexivity. Qed.

Example ancestors_nested : ancestors "runs\a\b" = ["runs"; "runs\a"].
Proof. reflexivity. Qed.

Example plain_paths :
  plain "runs\a\m.pth" = true
  /\ plain "models\x/y.pth" = false
  /\ plain "runs\a\" = false
  /\ no_slash "runs/a\m.pth" = false.
Proof. repeat split. Qed.

Example missing_dirs_nested :
  missing_dirs demo_world "runs\a" = ["runs"; "runs\a"].
Proof. reflexivity. Qed.

Example out_size_conv_a : out_size 64 4 2 0 = 31.
Proof. reflexivity. Qed.

(** A 3x3 image under a 2x2 kernel that adds the diagonal. *)
Example conv2d_small :
  @conv2d int_arith 1 1 2 1 0
    (Tensor [1; 1; 2; 2] [1; 0; 0; 1]%Z) (Tensor [1] [10%Z])
    (Tensor [1; 1; 3; 3] [1; 2; 3; 4; 5; 6; 7; 8; 9]%Z)
  = Ok (Tensor [1; 1; 2; 2] [16; 18; 22; 24]%Z).
Proof. reflexivity. Qed.

Example conv2d_padded_strided :
  @conv2d int_arith 1 1 2 2 1
    (Tensor [1; 1; 2; 2] [1; 0; 0; 1]%Z) (Tensor [1] [10%Z])
    (Tensor [1; 1; 3; 3] [1; 2; 3; 4; 5; 6; 7; 8; 9]%Z)
  = Ok (Tensor [1; 1; 2; 2] [11; 13; 17; 24]%Z).
Proof. reflexivity. Qed.

Example conv2d_wrong_channels :
  @conv2d int_arith 2 1 2 1 0
    (Tensor [1; 2; 2; 2] [1; 0; 0; 1; 1; 0; 0; 1]%Z) (Tensor [1] [10%Z])
    (Tensor [1; 1; 3; 3] [1; 2; 3; 4; 5; 6; 7; 8; 9]%Z)
  = Raise ShapeError.
Proof. reflexivity. Qed.

Example max_pool2d_small :
  @max_pool2d int_arith 2 1 0
    (Tensor [1; 1; 3; 3] [1; 2; 3; 4; 5; 6; 7; 8; 9]%Z)
  = Ok (Tensor [1; 1; 2; 2] [5; 6; 8; 9]%Z).
Proof. reflexivity. Qed.

Example relu_small :
  @relu int_arith (Tensor [3] [5; 2147483653; 0]%Z) = Tensor [3] [5; 0; 0]%Z.
Proof. reflexivity. Qed.

Example linear_small :
  @linear int_arith 3 2
    (Tensor [2; 3] [1; 0; 0; 0; 1; 1]%Z) (Tensor [2] [100; 200]%Z)
    (Tensor [2; 3] [1; 2; 3; 4; 5; 6]%Z)
  = Ok (Tensor [2; 2] [101; 205; 104; 211]%Z).
Proof. reflexivity. Qed.

Example flatten_small : flatten_shape [2; 64; 7; 7] = Ok [2; 3136].
Proof. reflexivity. Qed.

Lemma cells_with_bias_shapes b :
  Forall2 (fun d s => length d = numel s) (cells_with_bias b) param_shapes.
Proof.
  unfold cells_with_bias, param_shapes, zeros.
  repeat (apply List.Forall2_cons; [first [apply repeat_length|reflexivity]|]).
  apply List.Forall2_nil.
Qed.

Lemma demo_model_ok : model_ok demo_world demo_model.
Proof.
  split; [apply arch_ok_init|].
  apply (params_ok_cells demo_world [data demo_input] (cells_with_bias 0%Z) []).
  - reflexivity.
  - apply cells_with_bias_shapes.
Qed.

Lemma demo_x_holds : holds demo_world demo_x demo_input.
Proof. split; reflexivity. Qed.

Lemma forward_output_shape_witness :
  exists y w', @forward int_arith demo_model demo_x demo_world = (Ok y, w')
    /\ tshape y = [1; 1]
    /\ exists d, heap w' !! stor y = Some d /\ length d = 1.
Proof.
  apply (@forward_output_shape int_arith demo_model demo_x demo_world
           demo_input 1).
  - exact demo_model_ok.
  - exact demo_x_holds.
  - reflexivity.
  - lia.
Defined.

Lemma forward_shape_chain_witness :
  (exists y w',
      @run_stages (stages (H := int_arith) demo_model) demo_x demo_world
      = (Ok (y, [ [1; 32; 31; 31]; [1; 32; 15; 15]; [1; 64; 15; 15];
                  [1; 64; 15; 15]; [1; 64; 7; 7]; [1; 3136]; [1; 512];
                  [1; 64]; [1; 1] ]), w')
      /\ @forward int_arith demo_model demo_x demo_world = (Ok y, w'))
  /\ Conv2d.out_channels (cv1 demo_model) = Conv2d.in_channels (cv2 demo_model)
  /\ Conv2d.out_channels (cv2 demo_model) = Conv2d.in_channels (cv3 demo_model)
  /\ 7 * 7 * Conv2d.out_channels (cv3 demo_model)
     = Linear.in_features (fc1 demo_model)
  /\ Linear.out_features (fc1 demo_model) = Linear.in_features (fc2 demo_model)
  /\ Linear.out_features (fc2 demo_model) = Linear.in_features (fc3 demo_model)
  /\ Linear.out_features (fc3 demo_model) = 1.
Proof.
  apply (@forward_shape_chain int_arith demo_model demo_x demo_world
           demo_input).
  - exact demo_model_ok.
  - exact demo_x_holds.
  - reflexivity.
Defined.

Lemma forward_pure_witness :
  exists r h',
    @forward int_arith demo_model demo_x demo_world = (r, grow demo_world h')
    /\ @forward_value int_arith demo_model demo_x demo_world
       = @forward_fn int_arith demo_model (value_of demo_world) demo_input
    /\ @forward_value int_arith demo_model demo_x (grow demo_world h')
       = @forward_fn int_arith demo_model (value_of demo_world) demo_input
    /\ has_params (grow demo_world h') demo_model (value_of demo_world)
    /\ holds (grow demo_world h') demo_x demo_input.
Proof.
  apply (@forward_pure int_arith demo_model demo_x demo_world
           (value_of demo_world) demo_input).
  - apply params_ok_has_params. exact (proj2 demo_model_ok).
  - exact demo_x_holds.
Defined.

Lemma demo_params : has_params demo_world demo_model (value_of demo_world).
Proof. apply params_ok_has_params. exact (proj2 demo_model_ok). Qed.

Lemma file_params : has_params file_world demo_model (value_of file_world).
Proof. exact demo_params. Qed.

Lemma save_model_no_backslash_witness :
  save_model demo_model "model.pth" false file_world
  = (Raise ValueError, file_world).
Proof.
  apply (save_model_no_backslash demo_model "model.pth" false file_world).
  cbn. intros Hin.
  repeat match goal with
         | Hx : _ \/ _ |- _ => destruct Hx as [Hx|Hx]; [discriminate Hx|]
         end.
  exact Hin.
Defined.

Lemma save_model_no_clobber_witness :
  exists w', save_model demo_model demo_path false file_world = (Ok tt, w')
    /\ entries w' = entries file_world
    /\ heap w' = heap file_world
    /\ trace w' = trace file_world ++ [EvExists "models"; EvExists demo_path].
Proof.
  apply (save_model_no_clobber demo_model demo_path 6 file_world);
    reflexivity.
Defined.

(** C5 as stated fails on a file in the working directory: the path has
    no backslash, and the call raises instead of returning. *)
Lemma save_model_no_clobber_bare_filename :
  is_file file_world "model.pth" = true
  /\ ~ (exists w', save_model demo_model "model.pth" false file_world
                   = (Ok tt, w')).
Proof.
  split; [reflexivity|]. intros [w' E].
  rewrite save_model_rindex_run in E by reflexivity. discriminate E.
Qed.

Lemma save_model_overwrite_witness :
  exists w', save_model demo_model demo_path true file_world = (Ok tt, w')
    /\ entries w'
       = <[demo_path := File (Pickled (values_of (value_of file_world)
                                         (state_dict demo_model)))]>
           (entries file_world)
    /\ heap w' = heap file_world
    /\ trace w'
       = trace file_world
         ++ [EvExists "models"; EvExists demo_path; EvWrite demo_path;
             EvPrint ("model saved to " +:+ dquote +:+ demo_path +:+
                      dquote +:+ ".")].
Proof.
  apply (save_model_overwrite demo_model demo_path 6 file_world
           (value_of file_world)); [reflexivity..|exact file_params].
Defined.

(** C7 as stated fails on a file in the working directory: the call
    raises and the file keeps its content. *)
Lemma save_model_overwrite_bare_filename :
  is_file file_world "model.pth" = true
  /\ save_model demo_model "model.pth" true file_world
     = (Raise ValueError, file_world)
  /\ ~ (exists w', save_model demo_model "model.pth" true file_world
                   = (Ok tt, w')).
Proof.
  split; [reflexivity|].
  rewrite save_model_rindex_run by reflexivity.
  split; [reflexivity|]. intros [w' E]. discriminate E.
Qed.


Lemma load_model_missing_witness :
  (exists m w', load_model demo_path (prompt_world "y") = (Ok m, w')
     /\ model_ok w' m
     /\ heap w' = heap demo_world ++ init_cells (fun _ => 0%Z) 0
     /\ stors (state_dict m) = seq 13 12
     /\ entries w' = demo_fs
     /\ trace w' = [EvExists demo_path; EvInput (prompt_of demo_path);
                    EvPrint "new model created"])
  /\ (exists w', load_model demo_path (prompt_world "no")
                 = (Raise FileNotFoundError, w')
        /\ entries w' = demo_fs
        /\ trace w' = [EvExists demo_path; EvInput (prompt_of demo_path)]).
Proof.
  split.
  - apply (proj1 (load_model_missing demo_path (prompt_world "y") "y" []
                    eq_refl eq_refl)).
    left. reflexivity.
  - apply (proj2 (load_model_missing demo_path (prompt_world "no") "no" []
                    eq_refl eq_refl)); discriminate.
Defined.

Lemma load_model_key_mismatch_witness :
  exists missing unexpected mismatched w',
    load_model demo_path empty_dict_world
    = (Raise (StateDictError missing unexpected mismatched), w')
    /\ (missing <> [] \/ unexpected <> []).
Proof.
  apply (load_model_key_mismatch demo_path empty_dict_world []).
  - reflexivity.
  - intros Hk. apply (proj2 (Hk "fc3.bias")). cbn. tauto.
Defined.

Lemma demo_save_run :
  save_model demo_model demo_path false demo_world = (Ok tt, saved_world).
Proof.
  unfold saved_world.
  rewrite (save_model_write_run demo_model demo_path 6 demo_world
             (value_of demo_world) false);
    [reflexivity|reflexivity|reflexivity|reflexivity|right; reflexivity
    |exact demo_params].
Qed.

Lemma save_load_round_trip_witness :
  exists m' w2,
    load_model demo_path saved_world = (Ok m', w2)
    /\ model_ok w2 m'
    /\ Forall2 (fun kt kt' =>
                  fst kt' = fst kt
                  /\ value_of w2 (snd kt') = value_of demo_world (snd kt))
               (state_dict demo_model) (state_dict m')
    /\ forall x, @forward_value int_arith m' x w2
                 = @forward_value int_arith demo_model x w2.
Proof.
  apply (@save_load_round_trip int_arith demo_model demo_path false
           demo_world saved_world).
  - exact demo_model_ok.
  - right. reflexivity.
  - exact demo_save_run.
Defined.

(** ** A stale checkpoint *)

Lemma accum_const n step a :
  (forall i acc, step i acc = acc) -> accum n step a = a.
Proof.
  intros Hs. unfold accum. generalize (seq 0 n).
  intros l. induction l as [|i l IH]; cbn [foldl]; [reflexivity|].
  rewrite Hs. exact IH.
Qed.

(** With integer arithmetic and a zero weight in [fc3], the model returns
    the bias of [fc3] on every image. *)
Lemma forward_fn_zero_fc3 m pv X b :
  arch_ok m -> shape X = [1; 6; 64; 64] ->
  data (pv (Linear.weight (fc3 m))) = zeros 64 ->
  data (pv (Linear.bias (fc3 m))) = [b] ->
  @forward_fn int_arith m pv X = Ok (Tensor [1; 1] [b]).
Proof.
  intros Ha HX Hw Hb.
  destruct (@stages_fn_shapes int_arith m pv X 1 Ha HX)
    as (Y & EY & _ & _ & hv & Shv & EL).
  unfold forward_fn. rewrite EY. cbn [rbind fst]. rewrite <- EL.
  unfold linear. rewrite Shv. cbn [rev app Nat.eqb negb].
  change (numel [1]) with 1. unfold tabulate2. cbn [seq flat_map map app].
  do 3 f_equal. rewrite Hb. cbn [nth]. apply accum_const.
  intros i acc. rewrite Hw. unfold zeros. rewrite nth_repeat.
  cbn [f32_add f32_mul int_arith f32_zero].
  unfold f32_zero. rewrite Z.mul_0_r. apply Z.add_0_r.
Qed.

Lemma model_ok_frame w w' m :
  (forall l, l < length (heap w) -> heap w' !! l = heap w !! l) ->
  model_ok w m -> model_ok w' m.
Proof.
  intros Hfr [Ha Hp]. split; [exact Ha|].
  apply (params_ok_shaped _ _ Ha). apply (params_ok_shaped _ _ Ha) in Hp.
  revert Hp. apply shaped_mono. intros l d Hd. rewrite Hfr; [exact Hd|].
  eapply lookup_lt_Some. exact Hd.
Qed.

Lemma value_of_frame w w' t d :
  (forall l, l < length (heap w) -> heap w' !! l = heap w !! l) ->
  heap w !! stor t = Some d ->
  value_of w' t = Tensor (tshape t) d.
Proof.
  intros Hfr Hd. unfold value_of. rewrite Hfr, Hd; [reflexivity|].
  eapply lookup_lt_Some. exact Hd.
Qed.

(** C1 as stated fails when a checkpoint of another model stands at the
    path: [save_model] with the default [overwrite=False] returns without
    error and without writing, and [load_model] then returns the older
    model, whose output on the image (0.0) is not the saved model's
    (1.0).  Both models have a zero weight in [fc3], so the output is
    the bias of [fc3] whatever the other layers give. *)
Lemma stale_checkpoint_round_trip :
  exists w1 m' w2,
    save_model new_model demo_path false stale_world = (Ok tt, w1)
    /\ load_model demo_path w1 = (Ok m', w2)
    /\ @forward_value int_arith m' demo_x w2 = Ok (Tensor [1; 1] [0%Z])
    /\ @forward_value int_arith new_model demo_x w2
       = Ok (Tensor [1; 1] [one_f32])
    /\ @forward_value int_arith m' demo_x w2
       <> @forward_value int_arith new_model demo_x w2.
Proof.
  pose proof (save_model_skip_run new_model demo_path 6 stale_world
                eq_refl eq_refl eq_refl) as E1.
  set (w1 := log _ stale_world) in E1.
  assert (Hold : model_ok w1 old_model).
  { split; [apply arch_ok_init|].
    apply (params_ok_cells w1 (data demo_input :: cells_with_bias one_f32)
             (cells_with_bias 0%Z) []).
    - reflexivity.
    - apply cells_with_bias_shapes. }
  assert (Hnew : model_ok w1 new_model).
  { split; [apply arch_ok_init|].
    apply (params_ok_cells w1 [data demo_input] (cells_with_bias one_f32)
             (cells_with_bias 0%Z)).
    - reflexivity.
    - apply cells_with_bias_shapes. }
  assert (He : entries w1 !! demo_path
               = Some (checkpoint_of (value_of w1) old_model)).
  { change (entries w1)
      with (<[demo_path := checkpoint_of (value_of stale_base) old_model]>
              demo_fs).
    rewrite lookup_insert_eq. reflexivity. }
  destruct (@load_checkpoint_forward int_arith demo_path w1 old_model Hold He)
    as (m' & w2 & E2 & _ & Hfr & _ & Hf).
  assert (Hx : holds w2 demo_x demo_input).
  { split; [|reflexivity]. rewrite Hfr; [reflexivity|]. cbn. lia. }
  assert (Vold : @forward_value int_arith old_model demo_x w2
                 = Ok (Tensor [1; 1] [0%Z])).
  { rewrite (@forward_value_fn int_arith old_model demo_x w2 (value_of w2)
               demo_input
               (params_ok_has_params _ _
                  (proj2 (model_ok_frame w1 w2 _ Hfr Hold))) Hx).
    apply forward_fn_zero_fc3; [apply arch_ok_init|reflexivity| |].
    - rewrite (value_of_frame w1 w2 (Linear.weight (fc3 old_model))
                 (zeros (numel [1; 64])) Hfr eq_refl).
      reflexivity.
    - rewrite (value_of_frame w1 w2 (Linear.bias (fc3 old_model))
                 [0%Z] Hfr eq_refl).
      reflexivity. }
  assert (Vnew : @forward_value int_arith new_model demo_x w2
                 = Ok (Tensor [1; 1] [one_f32])).
  { rewrite (@forward_value_fn int_arith new_model demo_x w2 (value_of w2)
               demo_input
               (params_ok_has_params _ _
                  (proj2 (model_ok_frame w1 w2 _ Hfr Hnew))) Hx).
    apply forward_fn_zero_fc3; [apply arch_ok_init|reflexivity| |].
    - rewrite (value_of_frame w1 w2 (Linear.weight (fc3 new_model))
                 (zeros (numel [1; 64])) Hfr eq_refl).
      reflexivity.
    - rewrite (value_of_frame w1 w2 (Linear.bias (fc3 new_model))
                 [one_f32] Hfr eq_refl).
      reflexivity. }
  exists w1, m', w2. split; [exact E1|]. split; [exact E2|].
  rewrite Hf, Vold, Vnew. split; [reflexivity|]. split; [reflexivity|].
  discriminate.
Qed.

(** * Further properties *)

(** ** Window arithmetic *)

Lemma div2_bounds n : 2 * (n / 2) <= n < 2 * (n / 2) + 2.
Proof.
  pose proof (Nat.div_mod_eq n 2). pose proof (Nat.mod_upper_bound n 2). lia.
Qed.

Lemma out_size_pos n k s p : 1 <= out_size n k s p.
Proof. unfold out_size. lia. Qed.

Lemma out_size_same n : 1 <= n -> out_size n 3 1 1 = n.
Proof. intros Hn. unfold out_size. rewrite Nat.div_1_r. lia. Qed.

(** The windows of cv1, mp1 and mp2 fit exactly from 16 cells on. *)
Lemma windows_fit n :
  4 <= n /\ 3 <= out_size n 4 2 0
  /\ 3 <= out_size (out_size (out_size (out_size n 4 2 0) 3 2 0) 3 1 1) 3 1 1
  <-> 16 <= n.
Proof.
  rewrite !out_size_same by (rewrite ?out_size_same; apply out_size_pos).
  unfold out_size.
  pose proof (div2_bounds (n + 2 * 0 - 4)).
  pose proof (div2_bounds ((n + 2 * 0 - 4) / 2 + 1 + 2 * 0 - 3)).
  lia.
Qed.

Lemma pooled_7 n : 16 <= n -> pooled n = 7 <-> 64 <= n <= 71.
Proof.
  intros Hn. unfold pooled.
  rewrite !out_size_same by (rewrite ?out_size_same; apply out_size_pos).
  unfold out_size.
  pose proof (div2_bounds (n + 2 * 0 - 4)).
  pose proof (div2_bounds ((n + 2 * 0 - 4) / 2 + 1 + 2 * 0 - 3)).
  pose proof (div2_bounds
                (((n + 2 * 0 - 4) / 2 + 1 + 2 * 0 - 3) / 2 + 1 + 2 * 0 - 3)).
  lia.
Qed.

Lemma accepted_square n : accepted n n <-> 64 <= n <= 71.
Proof.
  unfold accepted. split.
  - intros (Hn & _ & Hp). apply pooled_7; [exact Hn|]. nia.
  - intros Hn. assert (H16 : 16 <= n) by lia.
    apply (pooled_7 n H16) in Hn. rewrite Hn. lia.
Qed.

(** ** The layers on inputs they refuse *)

Section LayerCases.
Context `{Float32Arith}.

Lemma conv2d_channels cin cout k s p w b x B C Hh W :
  shape x = [B; C; Hh; W] -> C <> cin ->
  conv2d cin cout k s p w b x = Raise ShapeError.
Proof.
  intros Hx Hc. unfold conv2d. rewrite Hx.
  destruct (Nat.eqb_spec C cin) as [?|_]; [contradiction|]. reflexivity.
Qed.

Lemma conv2d_too_small cin cout k s p w b x B C Hh W :
  shape x = [B; C; Hh; W] -> Hh + 2 * p < k \/ W + 2 * p < k ->
  conv2d cin cout k s p w b x = Raise ShapeError.
Proof.
  intros Hx Hs. unfold conv2d. rewrite Hx.
  destruct (negb (C =? cin)); [reflexivity|].
  destruct (s =? 0); [reflexivity|].
  destruct (Nat.ltb_spec (Hh + 2 * p) k) as [_|?]; [reflexivity|].
  destruct (Nat.ltb_spec (W + 2 * p) k) as [_|?]; [reflexivity|]. lia.
Qed.

Lemma max_pool2d_too_small k s p x B C Hh W :
  shape x = [B; C; Hh; W] -> Hh + 2 * p < k \/ W + 2 * p < k ->
  max_pool2d k s p x = Raise ShapeError.
Proof.
  intros Hx Hs. unfold max_pool2d. rewrite Hx.
  destruct (s =? 0); [reflexivity|].
  destruct (k / 2 <? p); [reflexivity|].
  destruct (Nat.ltb_spec (Hh + 2 * p) k) as [_|?]; [reflexivity|].
  destruct (Nat.ltb_spec (W + 2 * p) k) as [_|?]; [reflexivity|]. lia.
Qed.

Lemma linear_features fin fout w b x R F :
  shape x = [R; F] -> F <> fin -> linear fin fout w b x = Raise ShapeError.
Proof.
  intros Hx Hf. unfold linear. rewrite Hx. cbn [rev app].
  destruct (Nat.eqb_spec F fin) as [?|_]; [contradiction|]. reflexivity.
Qed.

(** [forward_fn] on a batch of 6-channel images: it returns a (B, 1)
    tensor when the sizes are accepted and raises a size error
    otherwise. *)
Lemma forward_fn_sizes m pv X B Hh W :
  arch_ok m -> shape X = [B; 6; Hh; W] ->
  match forward_fn m pv X with
  | Ok Y => accepted Hh W /\ shape Y = [B; 1] /\ tensor_wf Y
  | Raise e => ~ accepted Hh W /\ e = ShapeError
  end.
Proof.
  intros Ha HX. arch_equations Ha.
  pose proof (windows_fit Hh) as FH. pose proof (windows_fit W) as FW.
  unfold forward_fn, stages_fn, conv_relu_fn, linear_relu_fn, conv2d_of,
    linear_of, max_pool2d_of.
  repeat match goal with
         | Hx : Conv2d.in_channels _ = _ |- _ => rewrite Hx; clear Hx
         | Hx : Conv2d.out_channels _ = _ |- _ => rewrite Hx; clear Hx
         | Hx : Conv2d.kernel_size _ = _ |- _ => rewrite Hx; clear Hx
         | Hx : Conv2d.stride _ = _ |- _ => rewrite Hx; clear Hx
         | Hx : Conv2d.padding _ = _ |- _ => rewrite Hx; clear Hx
         | Hx : Linear.in_features _ = _ |- _ => rewrite Hx; clear Hx
         | Hx : Linear.out_features _ = _ |- _ => rewrite Hx; clear Hx
         | Hx : mp1 _ = _ |- _ => rewrite Hx; clear Hx
         | Hx : mp2 _ = _ |- _ => rewrite Hx; clear Hx
         end.
  cbn [MaxPool2d.kernel_size MaxPool2d.stride MaxPool2d.padding].
  cbn [run_stages_fn].
  set (h1 := out_size Hh 4 2 0) in *. set (w1 := out_size W 4 2 0) in *.
  (* cv1 *)
  destruct (le_lt_dec 4 Hh) as [G1|G1];
    [destruct (le_lt_dec 4 W) as [G1'|G1']|].
  2,3: rewrite (conv2d_too_small 6 32 4 2 0 _ _ X B 6 Hh W HX) by lia;
       cbn [rbind]; unfold accepted; split; [lia|reflexivity].
  destruct (conv2d_ok 6 32 4 2 0 (pv (Conv2d.weight (cv1 m)))
              (pv (Conv2d.bias (cv1 m))) X B Hh W HX)
    as (y1 & E1 & S1 & _); [lia..|].
  fold h1 w1 in S1. rewrite E1. cbn [rbind].
  (* mp1 *)
  destruct (le_lt_dec 3 h1) as [G2|G2];
    [destruct (le_lt_dec 3 w1) as [G2'|G2']|].
  2,3: rewrite (max_pool2d_too_small 3 2 0 (relu y1) B 32 h1 w1 S1) by lia;
       cbn [rbind]; unfold accepted; split; [lia|reflexivity].
  destruct (max_pool2d_ok 3 2 0 (relu y1) B 32 h1 w1 S1)
    as (y2 & E2 & S2 & _); [lia..|].
  rewrite E2. cbn [rbind].
  set (h2 := out_size h1 3 2 0) in *. set (w2 := out_size w1 3 2 0) in *.
  pose proof (out_size_pos h1 3 2 0) as P2. fold h2 in P2.
  pose proof (out_size_pos w1 3 2 0) as P2'. fold w2 in P2'.
  (* cv2 *)
  destruct (conv2d_ok 32 64 3 1 1 (pv (Conv2d.weight (cv2 m)))
              (pv (Conv2d.bias (cv2 m))) y2 B h2 w2 S2)
    as (y3 & E3 & S3 & _); [lia..|].
  rewrite E3. cbn [rbind].
  set (h3 := out_size h2 3 1 1) in *. set (w3 := out_size w2 3 1 1) in *.
  pose proof (out_size_pos h2 3 1 1) as P3. fold h3 in P3.
  pose proof (out_size_pos w2 3 1 1) as P3'. fold w3 in P3'.
  (* cv3 *)
  destruct (conv2d_ok 64 64 3 1 1 (pv (Conv2d.weight (cv3 m)))
              (pv (Conv2d.bias (cv3 m))) (relu y3) B h3 w3 S3)
    as (y4 & E4 & S4 & _); [lia..|].
  rewrite E4. cbn [rbind].
  set (h4 := out_size h3 3 1 1) in *. set (w4 := out_size w3 3 1 1) in *.
  (* mp2 *)
  destruct (le_lt_dec 3 h4) as [G5|G5];
    [destruct (le_lt_dec 3 w4) as [G5'|G5']|].
  2,3: rewrite (max_pool2d_too_small 3 2 0 (relu y4) B 64 h4 w4 S4) by lia;
       cbn [rbind]; unfold accepted; split; [lia|reflexivity].
  destruct (max_pool2d_ok 3 2 0 (relu y4) B 64 h4 w4 S4)
    as (y5 & E5 & S5 & _); [lia..|].
  rewrite E5. cbn [rbind].
  assert (A16 : 16 <= Hh /\ 16 <= W) by lia.
  (* flatten *)
  unfold flatten. rewrite S5. cbn [flatten_shape rbind].
  assert (EN : numel [64; out_size h4 3 2 0; out_size w4 3 2 0]
               = 64 * (pooled Hh * pooled W)).
  { rewrite !numel_cons, numel_nil. unfold pooled. fold h1 w1 h2 w2 h3 w3 h4 w4.
    lia. }
  rewrite EN.
  (* fc1 *)
  destruct (Nat.eq_dec (pooled Hh * pooled W) 49) as [E49|N49].
  2:{ rewrite (linear_features 3136 512 _ _ _ B (64 * (pooled Hh * pooled W)))
        by (cbn [shape]; reflexivity || lia).
      cbn [rbind]. unfold accepted. split; [tauto|reflexivity]. }
  rewrite E49. change (64 * 49) with 3136.
  destruct (linear_ok 3136 512 (pv (Linear.weight (fc1 m)))
              (pv (Linear.bias (fc1 m))) (Tensor [B; 3136] (data y5)) B eq_refl)
    as (y6 & E6 & S6 & _).
  rewrite E6. cbn [rbind].
  destruct (linear_ok 512 64 (pv (Linear.weight (fc2 m)))
              (pv (Linear.bias (fc2 m))) (relu y6) B S6)
    as (y7 & E7 & S7 & _).
  rewrite E7. cbn [rbind].
  destruct (linear_ok 64 1 (pv (Linear.weight (fc3 m)))
              (pv (Linear.bias (fc3 m))) (relu y7) B S7)
    as (y8 & E8 & S8 & W8).
  rewrite E8. cbn [rbind fst].
  split; [unfold accepted; tauto|]. split; [exact S8|exact W8].
Qed.

(** The same for [forward] itself. *)
Lemma forward_sizes m x w X B Hh W :
  model_ok w m -> holds w x X -> shape X = [B; 6; Hh; W] ->
  exists r h', forward m x w = (r, grow w h')
    /\ match r with
       | Ok y => accepted Hh W /\ tshape y = [B; 1]
                 /\ exists d, heap (grow w h') !! stor y = Some d /\ length d = B
       | Raise e => ~ accepted Hh W /\ e = ShapeError
       end.
Proof.
  intros [Ha Hp] Hx HX.
  destruct (forward_refines m (value_of w) w x X
              (params_ok_has_params _ _ Hp) Hx) as (r & h' & E & Hm).
  pose proof (forward_fn_sizes m (value_of w) X B Hh W Ha HX) as Hs.
  exists r, h'. split; [exact E|].
  destruct (forward_fn m (value_of w) X) as [Y|e], r as [t|e'];
    try contradiction.
  - destruct Hs as (Hacc & SY & WY). destruct Hm as [Hd Ht].
    split; [exact Hacc|]. split; [congruence|].
    exists (data Y). split; [exact Hd|].
    unfold tensor_wf in WY. rewrite WY, SY, !numel_cons, numel_nil. lia.
  - subst e'. exact Hs.
Qed.

(** X1.  On a batch of B >= 1 images with 6 channels, of height [Hh] and
    width [W], [forward] returns a (B, 1) tensor when the sizes are
    accepted (both at least 16, and [pooled Hh * pooled W = 49], the
    7 * 7 * 64 features of [fc1]) and raises a size error otherwise. *)
Theorem forward_accepted_sizes m x w X B Hh W :
  model_ok w m -> holds w x X -> shape X = [B; 6; Hh; W] -> 1 <= B ->
  (accepted Hh W ->
   exists y w', forward m x w = (Ok y, w')
     /\ tshape y = [B; 1]
     /\ exists d, heap w' !! stor y = Some d /\ length d = B)
  /\ (~ accepted Hh W -> exists w', forward m x w = (Raise ShapeError, w')).
Proof.
  intros Hm Hx HX _.
  destruct (forward_sizes m x w X B Hh W Hm Hx HX) as (r & h' & E & Hr).
  rewrite E. destruct r as [y|e].
  - destruct Hr as (Hacc & Ht & Hd). split; [|tauto].
    intros _. exists y, (grow w h'). auto.
  - destruct Hr as (Hacc & ->). split; [tauto|]. intros _. eauto.
Qed.

(** X2.  On square images with 6 channels [forward] returns exactly when
    the side is between 64 and 71. *)
Theorem forward_square_sizes m x w X B N :
  model_ok w m -> holds w x X -> shape X = [B; 6; N; N] -> 1 <= B ->
  (exists y w', forward m x w = (Ok y, w')) <-> 64 <= N <= 71.
Proof.
  intros Hm Hx HX _. rewrite <- accepted_square.
  destruct (forward_sizes m x w X B N N Hm Hx HX) as (r & h' & E & Hr).
  rewrite E. destruct r as [y|e].
  - destruct Hr as (Hacc & _). split; [auto|]. intros _. eauto.
  - destruct Hr as (Hacc & _). split; [|tauto].
    intros (y & w' & Ey). discriminate.
Qed.

(** X3.  On a 4-d input whose second size is not 6 [forward] raises a
    size error in [cv1], before any tensor is made: the world is as it
    was. *)
Theorem forward_wrong_channels m x w X B C Hh W :
  model_ok w m -> holds w x X -> shape X = [B; C; Hh; W] -> C <> 6 ->
  forward m x w = (Raise ShapeError, w).
Proof.
  intros [Ha Hp] Hx HX HC. arch_equations Ha.
  pose proof (params_ok_has_params _ _ Hp) as Hv.
  unfold has_params, state_dict in Hv. rewrite !Forall_cons in Hv.
  cbn [snd] in Hv. destruct Hv as (Hw1 & Hb1 & _).
  unfold forward, conv_relu, Conv2d_forward. unfold bind at 1 2 3 4 5 6.
  rewrite (read_tensor_holds _ _ _ Hx), (read_tensor_holds _ _ _ Hw1),
    (read_tensor_holds _ _ _ Hb1).
  unfold lift.
  rewrite (conv2d_channels _ _ _ _ _ _ _ X B C Hh W HX) by congruence.
  reflexivity.
Qed.

End LayerCases.

(** ** The storages [forward] makes *)

Lemma read_tensor_cases t w :
  (exists v, read_tensor t w = (Ok v, w))
  \/ read_tensor t w = (Raise InvalidHandle, w).
Proof. unfold read_tensor. destruct (heap w !! stor t); eauto. Qed.

Section Allocation.
Context `{Float32Arith}.

Lemma ReLU_inplace_new y w :
  ReLU_inplace (TRef (length (heap w)) (shape y)) (grow w [data y])
  = (Ok (TRef (length (heap w)) (shape y)), grow w [data (relu y)]).
Proof.
  pose proof (ReLU_inplace_fresh w [] y) as Er. rewrite app_nil_r in Er.
  exact Er.
Qed.

Lemma alloc_run y w :
  alloc y w = (Ok (TRef (length (heap w)) (shape y)), grow w [data y]).
Proof. reflexivity. Qed.

Lemma conv_relu_alloc L x w :
  match conv_relu L x w with
  | (Ok r, w') => exists d, w' = grow w [d] /\ stor r = length (heap w)
  | (Raise _, w') => w' = w
  end.
Proof.
  unfold conv_relu, Conv2d_forward, bind, lift.
  destruct (read_tensor_cases x w) as [[xv ->]| ->]; [|reflexivity].
  destruct (read_tensor_cases (Conv2d.weight L) w) as [[wv ->]| ->];
    [|reflexivity].
  destruct (read_tensor_cases (Conv2d.bias L) w) as [[bv ->]| ->];
    [|reflexivity].
  destruct (conv2d _ _ _ _ _ wv bv xv) as [y|e]; [|reflexivity].
  rewrite alloc_run, ReLU_inplace_new. eauto.
Qed.

Lemma linear_relu_alloc L x w :
  match linear_relu L x w with
  | (Ok r, w') => exists d, w' = grow w [d] /\ stor r = length (heap w)
  | (Raise _, w') => w' = w
  end.
Proof.
  unfold linear_relu, Linear_forward, bind, lift.
  destruct (read_tensor_cases x w) as [[xv ->]| ->]; [|reflexivity].
  destruct (read_tensor_cases (Linear.weight L) w) as [[wv ->]| ->];
    [|reflexivity].
  destruct (read_tensor_cases (Linear.bias L) w) as [[bv ->]| ->];
    [|reflexivity].
  destruct (linear _ _ wv bv xv) as [y|e]; [|reflexivity].
  rewrite alloc_run, ReLU_inplace_new. eauto.
Qed.

Lemma Linear_forward_alloc L x w :
  match Linear_forward L x w with
  | (Ok r, w') => exists d, w' = grow w [d] /\ stor r = length (heap w)
  | (Raise _, w') => w' = w
  end.
Proof.
  unfold Linear_forward, bind, lift.
  destruct (read_tensor_cases x w) as [[xv ->]| ->]; [|reflexivity].
  destruct (read_tensor_cases (Linear.weight L) w) as [[wv ->]| ->];
    [|reflexivity].
  destruct (read_tensor_cases (Linear.bias L) w) as [[bv ->]| ->];
    [|reflexivity].
  destruct (linear _ _ wv bv xv) as [y|e]; [|reflexivity].
  rewrite alloc_run. eauto.
Qed.

Lemma MaxPool2d_forward_alloc P x w :
  match MaxPool2d_forward P x w with
  | (Ok r, w') => exists d, w' = grow w [d] /\ stor r = length (heap w)
  | (Raise _, w') => w' = w
  end.
Proof.
  unfold MaxPool2d_forward, bind, lift.
  destruct (read_tensor_cases x w) as [[xv ->]| ->]; [|reflexivity].
  destruct (max_pool2d _ _ _ xv) as [y|e]; [|reflexivity].
  rewrite alloc_run. eauto.
Qed.

Lemma Flatten_forward_alloc x w :
  match Flatten_forward x w with
  | (Ok r, w') => w' = w /\ stor r = stor x
  | (Raise _, w') => w' = w
  end.
Proof.
  unfold Flatten_forward, bind, lift.
  destruct (flatten_shape (tshape x)); cbn; auto.
Qed.

(** X4.  A call of [forward] that returns has made exactly eight storages
    (one per convolution, pooling and linear layer; the in-place ReLUs and
    [Flatten] make none) and returns a handle on the last of them, so the
    result shares its storage with neither the input nor a parameter.  A
    call that raises has made at most seven.  Nothing else in the world
    changes. *)
Theorem forward_alloc m x w :
  match forward m x w with
  | (Ok y, w') =>
      exists cells, length cells = 8 /\ w' = grow w cells
                    /\ stor y = length (heap w) + 7
  | (Raise _, w') => exists cells, length cells <= 7 /\ w' = grow w cells
  end.
Proof.
  unfold forward, bind, ret.
  pose proof (conv_relu_alloc (cv1 m) x w) as S1.
  destruct (conv_relu (cv1 m) x w) as [[t1|e1] w1].
  2:{ subst. exists []. split; [cbn; lia|]. symmetry. apply grow_nil. }
  destruct S1 as (d1 & -> & St1).
  alloc_stage (@MaxPool2d_forward H) MaxPool2d_forward_alloc grow_grow.
  alloc_stage (@conv_relu H) conv_relu_alloc grow_grow.
  alloc_stage (@conv_relu H) conv_relu_alloc grow_grow.
  alloc_stage (@MaxPool2d_forward H) MaxPool2d_forward_alloc grow_grow.
  match goal with
  | |- context [Flatten_forward ?x ?w0] =>
      pose proof (Flatten_forward_alloc x w0) as S;
      destruct (Flatten_forward x w0) as [[t6|e6] w6];
      [ destruct S as (-> & St6)
      | subst; eexists; split; [|reflexivity]; cbn [length]; lia ]
  end.
  alloc_stage (@linear_relu H) linear_relu_alloc grow_grow.
  alloc_stage (@linear_relu H) linear_relu_alloc grow_grow.
  alloc_stage (@Linear_forward H) Linear_forward_alloc grow_grow.
  eexists. split; [|split; [reflexivity|]]; [reflexivity|].
  match goal with Hx : stor _ = length (heap (grow w _)) |- _ => rewrite Hx end.
  rewrite heap_grow, length_app. reflexivity.
Qed.

End Allocation.

(** ** The constructor *)

Section InitForward.
Context `{Float32Arith}.

(** X6.  A model fresh from [RoCNN()] takes every batch of accepted
    sizes: [forward] returns a (B, 1) tensor and leaves the input as it
    was. *)
Theorem init_then_forward w x X B Hh W :
  holds w x X -> shape X = [B; 6; Hh; W] -> 1 <= B -> accepted Hh W ->
  exists m w1 y w2,
    RoCNN_init w = (Ok m, w1)
    /\ forward m x w1 = (Ok y, w2)
    /\ tshape y = [B; 1]
    /\ (exists d, heap w2 !! stor y = Some d /\ length d = B)
    /\ holds w2 x X.
Proof.
  intros Hx HX _ Hacc. rewrite RoCNN_init_run.
  fold (after_init w).
  assert (Hx1 : holds (after_init w) x X).
  { exact (holds_grow w (init_cells (rng w) (rng_pos w)) x X Hx). }
  destruct (forward_sizes _ x (after_init w) X B Hh W (model_ok_init w) Hx1 HX)
    as (r & h' & E & Hr).
  destruct r as [y|e]; [|tauto]. destruct Hr as (_ & Ht & Hd).
  eexists _, _, y, _. split; [reflexivity|]. split; [exact E|].
  split; [exact Ht|]. split; [exact Hd|]. apply holds_grow. exact Hx1.
Qed.

End InitForward.

(** ** What save_model does to the world *)

Lemma world_eta w : log [] (set_entries (entries w) w) = w.
Proof. unfold log, set_entries. cbn. rewrite app_nil_r. destruct w; reflexivity. Qed.

Lemma log_set_entries es es' fs fs' w :
  log es' (set_entries fs' (log es (set_entries fs w)))
  = log (es ++ es') (set_entries fs' w).
Proof. unfold log, set_entries. cbn. rewrite app_assoc. reflexivity. Qed.

Lemma log_as_entries es w : log es w = log es (set_entries (entries w) w).
Proof. destruct w; reflexivity. Qed.

Lemma snapshot_world obj w : exists r, snapshot obj w = (r, w).
Proof.
  induction obj as [|[k t] obj IH]; cbn [snapshot]; [eexists; reflexivity|].
  unfold bind. destruct (read_tensor_cases t w) as [[v ->]| ->]; [|eauto].
  destruct IH as [[vs|e] ->]; eexists; reflexivity.
Qed.

(** torch.save writes a pickle at [path], which is no directory, or
    raises with the world as it was. *)
Lemma torch_save_cases obj path w :
  (exists sd, torch_save obj path w
     = (Ok tt, log [EvWrite path]
                 (set_entries (<[path := File (Pickled sd)]> (entries w)) w))
     /\ is_dir w path = false)
  \/ (exists e, torch_save obj path w = (Raise e, w)).
Proof.
  unfold torch_save, bind, open_for_write.
  destruct (is_dir w path) eqn:Ed; [right; eauto|].
  destruct (snapshot_world obj w) as [[sd|e] Es].
  - destruct (rindex sep path) as [i|].
    + destruct (is_dir w (prefix_to i path)); [|right; eauto].
      rewrite Es. left. eauto.
    + rewrite Es. left. eauto.
  - destruct (rindex sep path) as [i|].
    + destruct (is_dir w (prefix_to i path)); [|right; eauto].
      rewrite Es. right. eauto.
    + rewrite Es. right. eauto.
Qed.

Lemma makedirs_cases name w :
  makedirs name w
  = (Ok tt, log (map EvMkdir (missing_dirs w name))
              (set_entries (mkdirs (missing_dirs w name) (entries w)) w))
  \/ exists e, makedirs name w = (Raise e, w).
Proof.
  unfold makedirs.
  destruct (String.eqb name EmptyString); [right; eauto|].
  destruct (is_entry w name); [right; eauto|].
  destruct (existsb (is_file w) (ancestors name)); [right; eauto|].
  left. reflexivity.
Qed.

(** The world after [save_model]: events logged, some directories made,
    and possibly a file put at [path], where no directory stood. *)
Lemma save_model_world m path overwrite w :
  exists r es made fs,
    save_model m path overwrite w = (r, log es (set_entries fs w))
    /\ (made = []
        \/ exists i, rindex sep path = Some i
                     /\ made = missing_dirs w (prefix_to i path))
    /\ (fs = mkdirs made (entries w)
        \/ exists c, fs = <[path := File c]> (mkdirs made (entries w))
                     /\ mkdirs made (entries w) !! path <> Some Dir).
Proof.
  assert (Htail : forall s es0 made,
    exists r es fs,
      (torch_save (state_dict m) path ;; print s)
        (log es0 (set_entries (mkdirs made (entries w)) w))
      = (r, log es (set_entries fs w))
      /\ (fs = mkdirs made (entries w)
          \/ exists c, fs = <[path := File c]> (mkdirs made (entries w))
                       /\ mkdirs made (entries w) !! path <> Some Dir)).
  { intros s es0 made. unfold bind.
    destruct (torch_save_cases (state_dict m) path
                (log es0 (set_entries (mkdirs made (entries w)) w)))
      as [(sd & -> & Hd)|(e & ->)].
    - unfold print. cbn [entries log set_entries].
      rewrite ?log_set_entries, ?log_log. eexists _, _, _.
      split; [reflexivity|].
      right. eexists. split; [reflexivity|].
      unfold is_dir in Hd. cbn [entries log set_entries] in Hd.
      intros E. rewrite E in Hd. discriminate.
    - eexists _, _, _. split; [reflexivity|]. left. reflexivity. }
  unfold save_model. cbv zeta.
  destruct (rindex sep path) as [i|] eqn:Hi.
  2:{ unfold bind, lift. exists (Raise ValueError), [], [], (entries w).
      rewrite world_eta. cbn [mkdirs foldr]. auto. }
  unfold bind at 1. unfold lift. unfold bind at 1. unfold path_exists at 1.
  destruct (is_entry w (prefix_to i path)) eqn:Ef; cbn [negb].
  - unfold bind at 1. unfold path_exists.
    change (is_entry (log _ w) path) with (is_entry w path).
    rewrite log_log.
    assert (Hsave : forall s, exists r es fs,
      (torch_save (state_dict m) path ;; print s)
        (log ([EvExists (prefix_to i path)] ++ [EvExists path]) w)
      = (r, log es (set_entries fs w))
      /\ (fs = entries w
          \/ exists c, fs = <[path := File c]> (entries w)
                       /\ entries w !! path <> Some Dir)).
    { intros s. rewrite (log_as_entries _ w). exact (Htail s _ []). }
    destruct (is_entry w path) eqn:Ep; [destruct overwrite; cbn [negb]|].
    + destruct (Hsave ("model saved to " +:+ dquote +:+ path +:+ dquote +:+ "."))
        as (r & es & fs & E & Hfs).
      exists r, es, [], fs. split; [exact E|]. split; [left; reflexivity|].
      exact Hfs.
    + unfold ret. eexists (Ok tt), _, [], (entries w).
      split; [rewrite <- log_as_entries; reflexivity|]. auto.
    + destruct (Hsave ("model saved to " +:+ dquote +:+ path +:+ dquote +:+ "."))
        as (r & es & fs & E & Hfs).
      exists r, es, [], fs. split; [exact E|]. split; [left; reflexivity|].
      exact Hfs.
  - unfold bind at 1.
    destruct (makedirs_cases (prefix_to i path)
                (log [EvExists (prefix_to i path)] w)) as [->|(e & ->)].
    + unfold bind at 1. unfold print at 1.
      change (missing_dirs (log [EvExists (prefix_to i path)] w))
        with (missing_dirs w).
      cbn [entries log]. rewrite log_log.
      change (set_entries ?fs (log ?es w)) with (log es (set_entries fs w)).
      rewrite !log_log.
      destruct (Htail ("model saved to " +:+ dquote +:+ path +:+ dquote +:+ ".")
                  (([EvExists (prefix_to i path)]
                    ++ map EvMkdir (missing_dirs w (prefix_to i path)))
                   ++ [EvPrint ("created new folder at " +:+ dquote +:+
                                prefix_to i path +:+ dquote)])
                  (missing_dirs w (prefix_to i path)))
        as (r & es & fs & E & Hfs).
      exists r, es, (missing_dirs w (prefix_to i path)), fs.
      split; [exact E|]. split; [right; eauto|]. exact Hfs.
    + eexists (Raise e), _, [], (entries w).
      split; [rewrite <- log_as_entries; reflexivity|]. auto.
Qed.

Lemma mem_missing_entry w name p :
  is_entry w p = true -> mem p (missing_dirs w name) = false.
Proof.
  intros Hp. apply mem_false. intros a Ha ->.
  apply missing_dirs_In in Ha. destruct Ha as [Ha _]. congruence.
Qed.

(** X7.  Whatever [save_model] does (return or raise), it changes no
    tensor and reads nothing from the console, and in the file system it
    keeps what was there: every entry other than [path] is as it was, a
    directory is still a directory and a file still a file. *)
Theorem save_model_frame m path overwrite w r w' :
  save_model m path overwrite w = (r, w') ->
  heap w' = heap w /\ stdin w' = stdin w
  /\ (forall p, p <> path -> is_entry w p = true ->
                entries w' !! p = entries w !! p)
  /\ (forall p, is_dir w p = true -> is_dir w' p = true)
  /\ (forall p, is_file w p = true -> is_file w' p = true).
Proof.
  intros E.
  destruct (save_model_world m path overwrite w)
    as (r0 & es & made & fs & E0 & Hmade & Hfs).
  rewrite E0 in E. injection E as _ <-.
  assert (Hold : forall p, is_entry w p = true ->
                   mkdirs made (entries w) !! p = entries w !! p).
  { intros p Hp. rewrite lookup_mkdirs.
    destruct Hmade as [->|(i & _ & ->)]; [reflexivity|].
    rewrite mem_missing_entry by exact Hp. reflexivity. }
  split; [reflexivity|]. split; [reflexivity|].
  unfold is_dir, is_file. cbn [entries log set_entries].
  destruct Hfs as [->|(c & -> & Hnd)].
  - split; [|split].
    + intros p _ Hp. apply Hold. exact Hp.
    + intros p Hp. rewrite Hold; [exact Hp|].
      unfold is_entry. destruct (entries w !! p); [reflexivity|discriminate].
    + intros p Hp. rewrite Hold; [exact Hp|].
      unfold is_entry. destruct (entries w !! p); [reflexivity|discriminate].
  - split; [|split].
    + intros p Hne Hp. rewrite lookup_insert_ne by congruence.
      apply Hold. exact Hp.
    + intros p Hp.
      assert (Hpe : is_entry w p = true).
      { unfold is_entry. destruct (entries w !! p); [reflexivity|discriminate]. }
      destruct (decide (path = p)) as [->|Hne].
      * exfalso. apply Hnd. rewrite Hold by exact Hpe.
        destruct (entries w !! p) as [[|c']|]; [reflexivity|discriminate..].
      * rewrite lookup_insert_ne by exact Hne. rewrite Hold; assumption.
    + intros p Hp.
      assert (Hpe : is_entry w p = true).
      { unfold is_entry. destruct (entries w !! p); [reflexivity|discriminate]. }
      destruct (decide (path = p)) as [->|Hne].
      * rewrite lookup_insert_eq. reflexivity.
      * rewrite lookup_insert_ne by exact Hne. rewrite Hold; assumption.
Qed.


Lemma prefix_to_0 s : prefix_to 0 s = EmptyString.
Proof. destruct s; reflexivity. Qed.

(** X9.  On a path whose last backslash is its first character the
    folder is the empty name: [save_model] raises FileNotFoundError (from
    os.makedirs) after its existence check, with nothing written,
    whatever [overwrite] is. *)
Theorem save_model_root_path m path overwrite w :
  rindex sep path = Some 0 -> is_entry w EmptyString = false ->
  save_model m path overwrite w
  = (Raise FileNotFoundError, log [EvExists EmptyString] w).
Proof.
  intros Hi He. unfold save_model. cbv zeta. rewrite Hi.
  unfold bind at 1. unfold lift. rewrite prefix_to_0.
  unfold bind at 1. unfold path_exists at 1.
  rewrite He. cbn [negb]. unfold bind at 1. reflexivity.
Qed.



(** ** What load_model does to the world *)

(** The keys [load_params] reports as mismatched. *)
Lemma load_params_mismatched own sd : forall W ms mm W',
  load_params own sd W = (Ok (ms, mm), W') ->
  forall k, In k mm
            <-> exists p v, In (k, p) own /\ dict_get k sd = Some v
                            /\ shape v <> tshape p.
Proof.
  induction own as [|[k0 p0] own IH]; intros W ms mm W' E k.
  - cbn in E. injection E as <- <- <-. cbn. split; [tauto|].
    intros (p & v & [] & _).
  - cbn [load_params] in E. unfold bind at 1 in E.
    assert (Hrest : forall W1 here,
      (more <- load_params own sd ;;
       ret (fst here ++ fst more, snd here ++ snd more)) W1 = (Ok (ms, mm), W') ->
      exists mm1, mm = snd here ++ mm1
        /\ forall k, In k mm1
             <-> exists p v, In (k, p) own /\ dict_get k sd = Some v
                             /\ shape v <> tshape p).
    { intros W1 here. unfold bind.
      destruct (load_params own sd W1) as [[[ms1 mm1]|e] W2] eqn:E1;
        [|discriminate].
      cbn [ret fst snd]. intros E2. injection E2 as <- <- <-.
      exists mm1. split; [reflexivity|]. exact (IH _ _ _ _ E1). }
    destruct (dict_get k0 sd) as [v0|] eqn:Ek.
    + case_bool_decide as Hs.
      * unfold bind at 1 in E.
        destruct (write_data p0 (data v0) W) as [[[]|e] W1]; [|discriminate].
        cbn [ret] in E. apply Hrest in E.
        destruct E as (mm1 & -> & Hmm). cbn [snd app]. rewrite Hmm.
        split.
        -- intros (p & v & Hin & Hg & Hne). exists p, v. cbn [In]. auto.
        -- intros (p & v & [Heq|Hin] & Hg & Hne); [|eauto].
           injection Heq as <- <-. congruence.
      * cbn [ret] in E. apply Hrest in E.
        destruct E as (mm1 & -> & Hmm). cbn [snd app In]. rewrite Hmm.
        split.
        -- intros [<-|(p & v & Hin & Hg & Hne)]; [exists p0, v0|exists p, v];
             cbn [In]; auto.
        -- intros (p & v & [Heq|Hin] & Hg & Hne); [left|right; eauto].
           injection Heq as <- <-. reflexivity.
    + cbn [ret] in E. apply Hrest in E.
      destruct E as (mm1 & -> & Hmm). cbn [snd app]. rewrite Hmm.
      split.
      * intros (p & v & Hin & Hg & Hne). exists p, v. cbn [In]. auto.
      * intros (p & v & [Heq|Hin] & Hg & Hne); [|eauto].
        injection Heq as <- <-. congruence.
Qed.

Lemma state_dict_init_shapes base :
  map (fun kt => (fst kt, tshape (snd kt))) (state_dict (init_model base))
  = zip param_names param_shapes.
Proof. reflexivity. Qed.

Lemma after_init_heap w :
  heap (after_init w) = heap w ++ init_cells (rng w) (rng_pos w).
Proof. reflexivity. Qed.

Section LoadFacts.
Context `{Float32Arith}.

(** [load_state_dict] on a model just built: it changes the new storages
    only. *)
Lemma load_state_dict_init w es sd :
  exists r h',
    load_state_dict (init_model (length (heap w))) sd (log es (after_init w))
    = (r, set_heap h' (log es (after_init w)))
    /\ length h' = length (heap w) + 12
    /\ forall l, l < length (heap w) -> h' !! l = heap w !! l.
Proof.
  destruct (load_params_run (state_dict (init_model (length (heap w)))) sd _
              (init_valid w es))
    as (ms & mm & h' & E & Hl & _ & Hfr & _).
  unfold load_state_dict, bind. rewrite E. cbn [fst snd].
  assert (Hlen : length h' = length (heap w) + 12).
  { rewrite Hl. cbn [heap log]. rewrite after_init_heap, length_app.
    reflexivity. }
  assert (Hold : forall l, l < length (heap w) -> h' !! l = heap w !! l).
  { intros l Hlt. rewrite Hfr.
    - cbn [heap log]. rewrite after_init_heap. apply lookup_app_l. exact Hlt.
    - rewrite stors_init, in_seq. lia. }
  destruct ms; [destruct (List.filter _ (keys sd)); [destruct mm|]|];
    eexists _, h'; (split; [reflexivity|]); auto.
Qed.

(** Every run of [load_model]. *)
Lemma load_model_world path w :
  exists r w', load_model path w = (r, w')
    /\ entries w' = entries w
    /\ (forall l, l < length (heap w) -> heap w' !! l = heap w !! l)
    /\ (is_entry w path = true -> stdin w' = stdin w)
    /\ (is_entry w path = true \/ stdin w <> [] ->
        rng_pos w' = pos_after (rng_pos w) param_shapes
        /\ length (heap w') = length (heap w) + 12)
    /\ (is_entry w path = false -> stdin w = [] ->
        r = Raise EOFError
        /\ w' = log [EvExists path; EvInput (prompt_of path)] w).
Proof.
  assert (Hgrow : forall es l, l < length (heap w) ->
            heap (log es (after_init w)) !! l = heap w !! l).
  { intros es l Hl. cbn [heap log]. rewrite after_init_heap.
    apply lookup_app_l. exact Hl. }
  assert (Hlen : forall es,
            length (heap (log es (after_init w))) = length (heap w) + 12).
  { intros es. cbn [heap log]. rewrite after_init_heap, length_app.
    reflexivity. }
  destruct (entries w !! path) as [[|[sd|bytes]]|] eqn:Ee.
  - (* a directory *)
    exists (Raise IsADirectoryError), (after_init (log [EvExists path] w)).
    split.
    { unfold load_model. unfold bind at 1. unfold path_exists, is_entry.
      rewrite Ee. cbn [negb]. unfold bind at 1. cbn [ret].
      unfold bind at 1. rewrite RoCNN_init_run.
      fold (after_init (log [EvExists path] w)).
      unfold bind at 1. unfold torch_load.
      change (entries (after_init (log [EvExists path] w))) with (entries w).
      rewrite Ee. reflexivity. }
    split; [reflexivity|]. split; [apply (Hgrow [])|].
    split; [reflexivity|]. split; [intros _; split; [reflexivity|apply (Hlen [])]|].
    unfold is_entry. rewrite Ee. discriminate.
  - (* a pickled mapping *)
    rewrite (load_model_existing_run path w sd Ee).
    destruct (load_state_dict_init (log [EvExists path] w) [EvRead path] sd)
      as (r & h' & E & Hl & Hold).
    change (length (heap (log [EvExists path] w))) with (length (heap w))
      in E, Hl, Hold.
    rewrite E.
    assert (Hw : exists r' es,
      match r with
      | Ok _ => (Ok (init_model (length (heap w))),
                 log [EvPrint (loaded_notice path)]
                   (set_heap h'
                      (log [EvRead path] (after_init (log [EvExists path] w)))))
      | Raise e => (Raise e,
                    set_heap h'
                      (log [EvRead path] (after_init (log [EvExists path] w))))
      end = (r', log es (set_heap h'
                 (log [EvRead path] (after_init (log [EvExists path] w)))))).
    { destruct r as [[]|e].
      - eexists _, _. reflexivity.
      - exists (Raise e), []. f_equal. unfold log, set_heap. cbn.
        rewrite app_nil_r. reflexivity. }
    destruct Hw as (r' & es & ->). eexists _, _. split; [reflexivity|].
    split; [reflexivity|]. split; [exact Hold|]. split; [reflexivity|].
    split; [intros _; split; [reflexivity|exact Hl]|].
    unfold is_entry. rewrite Ee. discriminate.
  - (* another file *)
    exists (Raise UnpicklingError),
      (log [EvRead path] (after_init (log [EvExists path] w))).
    split.
    { unfold load_model. unfold bind at 1. unfold path_exists, is_entry.
      rewrite Ee. cbn [negb]. unfold bind at 1. cbn [ret].
      unfold bind at 1. rewrite RoCNN_init_run.
      fold (after_init (log [EvExists path] w)).
      unfold bind at 1. unfold torch_load.
      change (entries (after_init (log [EvExists path] w))) with (entries w).
      rewrite Ee. reflexivity. }
    split; [reflexivity|]. split; [apply (Hgrow [EvRead path])|].
    split; [reflexivity|].
    split; [intros _; split; [reflexivity|apply (Hlen [EvRead path])]|].
    unfold is_entry. rewrite Ee. discriminate.
  - (* nothing *)
    assert (He : is_entry w path = false) by (unfold is_entry; rewrite Ee; auto).
    destruct (stdin w) as [|ans rest] eqn:Hin.
    + exists (Raise EOFError), (log [EvExists path; EvInput (prompt_of path)] w).
      split.
      { unfold load_model. fold (prompt_of path). unfold bind at 1.
        unfold path_exists. rewrite He. cbn [negb].
        unfold bind at 1. unfold bind at 1. unfold input. cbn [stdin log].
        rewrite Hin. rewrite log_log. reflexivity. }
      split; [reflexivity|]. split; [reflexivity|].
      split; [intros; congruence|].
      split; [intros [?|?]; congruence|]. auto.
    + rewrite (load_model_missing_run path w ans rest He Hin). cbv zeta.
      destruct (mem ans ["y"; "Y"]); eexists _, _; (split; [reflexivity|]);
        (split; [reflexivity|]);
        (split; [intros l Hl; cbn [heap log]; rewrite after_init_heap;
                 apply lookup_app_l; exact Hl|]);
        (split; [intros; congruence|]);
        (split; [intros _; split; [reflexivity|];
                 cbn [heap log]; rewrite after_init_heap, length_app;
                 reflexivity|]);
        intros; congruence.
Qed.

(** X12.  When nothing stands at the path and the console is at end of
    input, [load_model] raises EOFError (from input) right after its
    prompt: no model is built and no file is opened. *)
Theorem load_model_no_answer path w :
  is_entry w path = false -> stdin w = [] ->
  load_model path w
  = (Raise EOFError, log [EvExists path; EvInput (prompt_of path)] w).
Proof.
  intros He Hin.
  destruct (load_model_world path w) as (r & w' & E & _ & _ & _ & _ & Hn).
  destruct (Hn He Hin) as [-> ->]. exact E.
Qed.

(** X13.  Whatever [load_model] does, the file system is as it was and
    every storage that existed keeps its data; when something stands at
    the path it reads nothing from the console. *)
Theorem load_model_frame path w r w' :
  load_model path w = (r, w') ->
  entries w' = entries w
  /\ (forall l d, heap w !! l = Some d -> heap w' !! l = Some d)
  /\ (is_entry w path = true -> stdin w' = stdin w).
Proof.
  intros E.
  destruct (load_model_world path w) as (r0 & w0 & E0 & He & Hh & Hs & _).
  rewrite E0 in E. injection E as <- <-.
  split; [exact He|]. split; [|exact Hs].
  intros l d Hd. rewrite Hh; [exact Hd|]. eapply lookup_lt_Some. exact Hd.
Qed.

(** X14.  Unless it stops at the prompt, [load_model] builds a new
    [RoCNN] before it looks at the file: whether it then returns or
    raises, twelve storages have been made and the generator has advanced
    as [RoCNN()] advances it. *)
Theorem load_model_builds_first path w r w' :
  load_model path w = (r, w') ->
  is_entry w path = true \/ stdin w <> [] ->
  rng_pos w' = pos_after (rng_pos w) param_shapes
  /\ length (heap w') = length (heap w) + 12.
Proof.
  intros E Hc.
  destruct (load_model_world path w) as (r0 & w0 & E0 & _ & _ & _ & Hb & _).
  rewrite E0 in E. injection E as <- <-. exact (Hb Hc).
Qed.

(** X15.  When the file holds a pickled mapping that has, under the name
    of a parameter, a tensor of other sizes than the parameter's,
    [load_model] raises the error of [load_state_dict], which lists that
    name as mismatched. *)
Theorem load_model_size_mismatch path w sd k s v :
  entries w !! path = Some (File (Pickled sd)) ->
  In (k, s) (zip param_names param_shapes) ->
  dict_get k sd = Some v -> shape v <> s ->
  exists missing unexpected mismatched w',
    load_model path w
    = (Raise (StateDictError missing unexpected mismatched), w')
    /\ In k mismatched.
Proof.
  intros He Hk Hg Hne. rewrite (load_model_existing_run path w sd He).
  unfold load_state_dict, bind.
  destruct (load_params_run (state_dict (init_model (length (heap w)))) sd _
              (init_valid (log [EvExists path] w) [EvRead path]))
    as (ms & mm & h' & E & _).
  change (length (heap (log [EvExists path] w))) with (length (heap w)) in E.
  rewrite E. cbn [fst snd].
  assert (Hin : In k mm).
  { apply (load_params_mismatched _ _ _ _ _ _ E).
    rewrite <- (state_dict_init_shapes (length (heap w))) in Hk.
    apply in_map_iff in Hk. destruct Hk as ([k' p] & Heq & Hin).
    cbn [fst snd] in Heq. injection Heq as -> <-. exists p, v. auto. }
  exists ms, (List.filter
                (fun k => negb (mem k (keys (state_dict
                                  (init_model (length (heap w)))))))
                (keys sd)), mm.
  eexists. split; [|exact Hin].
  destruct mm as [|k1 mm]; [destruct Hin|].
  destruct ms; [destruct (List.filter _ (keys sd))|]; reflexivity.
Qed.

End LoadFacts.

(** ** Loading a mapping *)

Lemma filter_nil {A} (f : A -> bool) l :
  (forall x, In x l -> f x = false) -> List.filter f l = [].
Proof.
  induction l as [|a l IH]; intros Hf; [reflexivity|].
  cbn [List.filter]. rewrite (Hf a) by (left; reflexivity).
  apply IH. intros x Hx. apply Hf. right. exact Hx.
Qed.

Lemma Forall2_and {A B} (P Q : A -> B -> Prop) l k :
  Forall2 P l k -> Forall2 Q l k -> Forall2 (fun x y => P x y /\ Q x y) l k.
Proof.
  induction 1 as [|x y l k Hxy _ IH]; intros HQ; inversion HQ; subst;
    constructor; auto.
Qed.

Lemma dict_get_state_dict m :
  Forall2 (fun kt k => fst kt = k /\ dict_get k (state_dict m) = Some (snd kt))
          (state_dict m) param_names.
Proof.
  unfold state_dict, param_names.
  repeat (apply List.Forall2_cons; [split; reflexivity|]).
  apply List.Forall2_nil.
Qed.

Section LoadMapping.
Context `{Float32Arith}.

(** [load_model] on a mapping that has a well-formed tensor of the
    declared sizes under each parameter name, and no other key. *)
Lemma load_model_mapping_run path w sd :
  entries w !! path = Some (File (Pickled sd)) ->
  (forall k, In k (keys sd) -> In k param_names) ->
  Forall2 (fun k s => exists v, dict_get k sd = Some v /\ shape v = s
                                /\ tensor_wf v)
          param_names param_shapes ->
  exists w',
    load_model path w = (Ok (init_model (length (heap w))), w')
    /\ model_ok w' (init_model (length (heap w)))
    /\ Forall2 (fun kt k => dict_get k sd = Some (value_of w' (snd kt)))
               (state_dict (init_model (length (heap w)))) param_names
    /\ entries w' = entries w
    /\ stdin w' = stdin w
    /\ trace w' = trace w ++ [EvExists path; EvRead path;
                              EvPrint (loaded_notice path)].
Proof.
  intros He Hkeys Hsd.
  rewrite (load_model_existing_run _ _ _ He).
  set (m := init_model (length (heap w))).
  set (W := log [EvRead path] (after_init (log [EvExists path] w))).
  destruct (load_params_run (state_dict m) sd W
              (init_valid (log [EvExists path] w) [EvRead path]))
    as (ms & mm & h' & E & Hl & Hms & Hfr & Hnd & Hmm).
  unfold load_state_dict, bind. rewrite E. cbn [fst snd].
  (* every parameter finds its tensor *)
  assert (Hall : Forall (fun kt => exists v,
              dict_get (fst kt) sd = Some v /\ shape v = tshape (snd kt)
              /\ tensor_wf v) (state_dict m)).
  { unfold param_names, param_shapes in Hsd. split_Forall2.
    unfold m, state_dict, init_model.
    cbn [cv1 cv2 cv3 fc1 fc2 fc3 Conv2d.weight Conv2d.bias Linear.weight
         Linear.bias].
    repeat (apply Forall_cons; split; [cbn [fst snd tshape]; assumption|]).
    apply List.Forall_nil. }
  assert (Ems : ms = []).
  { destruct ms as [|k0 ms]; [reflexivity|]. exfalso.
    destruct (proj1 (Hms k0) (or_introl eq_refl)) as [Hin Hnone].
    unfold keys in Hin. apply in_map_iff in Hin.
    destruct Hin as (kt & <- & Hin). rewrite Forall_forall in Hall.
    destruct (Hall kt) as (v & Hv & _); [apply list_elem_of_In; exact Hin|].
    congruence. }
  assert (Emm : mm = []).
  { apply Hmm. eapply Forall_impl; [exact Hall|].
    intros kt (v0 & Hv0 & Hs0 & _) v Hv. congruence. }
  assert (Eun : List.filter (fun k => negb (mem k (keys (state_dict m))))
                  (keys sd) = []).
  { apply filter_nil. intros k Hk. apply negb_false_iff, mem_In.
    rewrite keys_state_dict. apply Hkeys. exact Hk. }
  subst ms mm. rewrite Eun. cbn [ret].
  eexists. split; [reflexivity|].
  (* what the parameters hold now *)
  specialize (Hnd ltac:(unfold m; rewrite stors_init;
                        apply NoDup_ListNoDup, seq_NoDup)).
  assert (Hloaded : Forall (fun kt => exists v,
              dict_get (fst kt) sd = Some v /\ shape v = tshape (snd kt)
              /\ tensor_wf v /\ h' !! stor (snd kt) = Some (data v))
            (state_dict m)).
  { clear - Hall Hnd. revert Hall Hnd. generalize (state_dict m).
    induction 1 as [|kt l (v & Hv & Hs & Hwf) _ IH]; intros Hn;
      [apply List.Forall_nil|].
    apply Forall_cons in Hn. destruct Hn as [Hh Hn].
    apply Forall_cons. split; [|apply IH; exact Hn].
    exists v. auto. }
  cbn [heap log set_heap entries stdin trace].
  split; [|split; [|split; [reflexivity|split; [reflexivity|]]]].
  - split; [apply arch_ok_init|]. apply params_ok_shaped; [apply arch_ok_init|].
    unfold shaped, param_ok. cbn [heap log set_heap].
    unfold m, state_dict, init_model, param_shapes in *.
    cbn [cv1 cv2 cv3 fc1 fc2 fc3 Conv2d.weight Conv2d.bias Linear.weight
         Linear.bias] in *.
    repeat match goal with
           | Hx : Forall _ (_ :: _) |- _ =>
               apply Forall_cons in Hx; destruct Hx as [? Hx]
           end.
    cbn [fst snd tshape stor] in *.
    repeat (apply List.Forall2_cons;
            [split; [reflexivity|];
             match goal with
             | Hx : exists v, _ /\ _ /\ _ /\ h' !! ?l = _
               |- exists d, h' !! ?l = _ /\ _ =>
                 let v := fresh "v" in
                 let Hs := fresh in let Hwf := fresh in let Hh := fresh in
                 destruct Hx as (v & _ & Hs & Hwf & Hh);
                 exists (data v); split; [exact Hh|];
                 unfold tensor_wf in Hwf; rewrite Hwf, Hs; reflexivity
             end|]).
    apply List.Forall2_nil.
  - pose proof (dict_get_state_dict m) as Hk.
    assert (Hboth : Forall2 (fun kt k => fst kt = k /\ exists v,
                dict_get (fst kt) sd = Some v /\ shape v = tshape (snd kt)
                /\ tensor_wf v /\ h' !! stor (snd kt) = Some (data v))
              (state_dict m) param_names).
    { clear - Hk Hloaded. revert Hloaded. induction Hk as [|kt k l ks [Hf _] _ IH];
        intros Hl; [apply List.Forall2_nil|].
      apply Forall_cons in Hl. destruct Hl as [Hx Hl].
      apply List.Forall2_cons; [auto|apply IH; exact Hl]. }
    revert Hboth. apply Forall2_impl'.
    intros kt k (<- & v & Hv & Hs & _ & Hh). rewrite Hv. f_equal.
    unfold value_of. cbn [heap log set_heap]. rewrite Hh, <- Hs.
    destruct v; reflexivity.
  - unfold W. cbn. rewrite <- !app_assoc. reflexivity.
Qed.

(** X16.  When the file holds a pickled mapping with a well-formed
    tensor of the declared sizes under each of the twelve parameter names
    and no other key, in whatever order, [load_model] returns a
    well-formed model whose parameters have exactly these tensors as
    values; it prints its notice and the file system is as it was. *)
Theorem load_model_mapping path w sd :
  entries w !! path = Some (File (Pickled sd)) ->
  (forall k, In k (keys sd) -> In k param_names) ->
  Forall2 (fun k s => exists v, dict_get k sd = Some v /\ shape v = s
                                /\ tensor_wf v)
          param_names param_shapes ->
  exists m w',
    load_model path w = (Ok m, w')
    /\ model_ok w' m
    /\ Forall2 (fun kt k => fst kt = k
                            /\ dict_get k sd = Some (value_of w' (snd kt)))
               (state_dict m) param_names
    /\ entries w' = entries w
    /\ trace w' = trace w ++ [EvExists path; EvRead path;
                              EvPrint ("model loaded from " +:+ dquote +:+
                                       path +:+ dquote)].
Proof.
  intros He Hkeys Hsd.
  destruct (load_model_mapping_run path w sd He Hkeys Hsd)
    as (w' & E & Hok & Hv & Hent & _ & Htr).
  exists (init_model (length (heap w))), w'.
  split; [exact E|]. split; [exact Hok|]. split; [|split; [exact Hent|exact Htr]].
  apply Forall2_and; [|exact Hv].
  eapply Forall2_impl'; [|apply dict_get_state_dict]. intros kt k [Hf _].
  exact Hf.
Qed.


End LoadMapping.

(** ** The further properties at concrete inputs *)

Lemma wide_x_holds : holds demo_world wide_x wide_input.
Proof. split; reflexivity. Qed.

Lemma rgb_x_holds : holds demo_world rgb_x rgb_input.
Proof. split; reflexivity. Qed.

Lemma accepted_64 : accepted 64 64.
Proof. apply accepted_square. lia. Qed.

Lemma not_accepted_32_128 : ~ accepted 32 128.
Proof. intros (_ & _ & Hp). vm_compute in Hp. discriminate Hp. Qed.

Lemma forward_accepted_sizes_witness :
  (exists y w', @forward int_arith demo_model demo_x demo_world = (Ok y, w')
     /\ tshape y = [1; 1]
     /\ exists d, heap w' !! stor y = Some d /\ length d = 1)
  /\ (exists w', @forward int_arith demo_model wide_x demo_world
                 = (Raise ShapeError, w')).
Proof.
  split.
  - apply (proj1 (@forward_accepted_sizes int_arith demo_model demo_x demo_world
                    demo_input 1 64 64 demo_model_ok demo_x_holds eq_refl
                    (le_n 1))).
    exact accepted_64.
  - apply (proj2 (@forward_accepted_sizes int_arith demo_model wide_x demo_world
                    wide_input 1 32 128 demo_model_ok wide_x_holds eq_refl
                    (le_n 1))).
    exact not_accepted_32_128.
Defined.

Lemma forward_square_sizes_witness :
  (exists y w', @forward int_arith demo_model demo_x demo_world = (Ok y, w'))
  <-> 64 <= 64 <= 71.
Proof.
  apply (@forward_square_sizes int_arith demo_model demo_x demo_world
           demo_input 1 64).
  - exact demo_model_ok.
  - exact demo_x_holds.
  - reflexivity.
  - lia.
Defined.

Lemma forward_wrong_channels_witness :
  @forward int_arith demo_model rgb_x demo_world = (Raise ShapeError, demo_world).
Proof.
  apply (@forward_wrong_channels int_arith demo_model rgb_x demo_world
           rgb_input 1 3 64 128).
  - exact demo_model_ok.
  - exact rgb_x_holds.
  - reflexivity.
  - lia.
Defined.

Lemma init_then_forward_witness :
  exists m w1 y w2,
    RoCNN_init demo_world = (Ok m, w1)
    /\ @forward int_arith m demo_x w1 = (Ok y, w2)
    /\ tshape y = [1; 1]
    /\ (exists d, heap w2 !! stor y = Some d /\ length d = 1)
    /\ holds w2 demo_x demo_input.
Proof.
  apply (@init_then_forward int_arith demo_world demo_x demo_input 1 64 64).
  - exact demo_x_holds.
  - reflexivity.
  - lia.
  - exact accepted_64.
Defined.

(** The save to "runs\a\m.pth". *)
Lemma nested_save_run :
  save_model demo_model nested_path false demo_world = (Ok tt, nested_world).
Proof.
  unfold nested_world.
  rewrite (save_model_new_folder_run demo_model nested_path 6 demo_world
             (value_of demo_world) false);
    [reflexivity|reflexivity|discriminate|reflexivity|reflexivity|reflexivity
    |exact demo_params].
Qed.


Lemma save_model_frame_witness :
  heap nested_world = heap demo_world /\ stdin nested_world = stdin demo_world
  /\ (forall p, p <> nested_path -> is_entry demo_world p = true ->
                entries nested_world !! p = entries demo_world !! p)
  /\ (forall p, is_dir demo_world p = true -> is_dir nested_world p = true)
  /\ (forall p, is_file demo_world p = true -> is_file nested_world p = true).
Proof.
  apply (save_model_frame demo_model nested_path false demo_world (Ok tt)
           nested_world).
  exact nested_save_run.
Defined.


Lemma save_model_root_path_witness :
  save_model demo_model root_path true demo_world
  = (Raise FileNotFoundError, log [EvExists EmptyString] demo_world).
Proof.
  apply (save_model_root_path demo_model root_path true demo_world);
    reflexivity.
Defined.



Lemma load_model_no_answer_witness :
  load_model demo_path silent_world
  = (Raise EOFError,
     log [EvExists demo_path; EvInput (prompt_of demo_path)] silent_world).
Proof.
  apply (load_model_no_answer demo_path silent_world); reflexivity.
Defined.

(** [load_model] on the demo world, whose console answers "y". *)
Lemma demo_load_run :
  load_model demo_path demo_world
  = (Ok (init_model 13),
     log [EvPrint "new model created"]
       (after_init
          (set_stdin []
             (log [EvExists demo_path; EvInput (prompt_of demo_path)]
                demo_world)))).
Proof.
  rewrite (load_model_missing_run demo_path demo_world "y" [] eq_refl eq_refl).
  reflexivity.
Qed.

Lemma load_model_frame_witness :
  exists r w', load_model demo_path demo_world = (r, w')
    /\ entries w' = entries demo_world
    /\ (forall l d, heap demo_world !! l = Some d -> heap w' !! l = Some d)
    /\ (is_entry demo_world demo_path = true -> stdin w' = stdin demo_world).
Proof.
  eexists _, _. split; [exact demo_load_run|].
  apply (load_model_frame demo_path demo_world _ _ demo_load_run).
Defined.

Lemma load_model_builds_first_witness :
  exists r w', load_model demo_path demo_world = (r, w')
    /\ rng_pos w' = pos_after (rng_pos demo_world) param_shapes
    /\ length (heap w') = length (heap demo_world) + 12.
Proof.
  eexists _, _. split; [exact demo_load_run|].
  apply (load_model_builds_first demo_path demo_world _ _ demo_load_run).
  right. discriminate.
Defined.

Lemma load_model_size_mismatch_witness :
  exists missing unexpected mismatched w',
    load_model demo_path wrong_size_world
    = (Raise (StateDictError missing unexpected mismatched), w')
    /\ In "fc3.bias" mismatched.
Proof.
  apply (load_model_size_mismatch demo_path wrong_size_world
           [("fc3.bias", Tensor [2] [0%Z; 0%Z])] "fc3.bias" [1]
           (Tensor [2] [0%Z; 0%Z])).
  - reflexivity.
  - cbn. repeat (first [left; reflexivity | right]).
  - reflexivity.
  - discriminate.
Defined.

Lemma param_ok_wf w t s : param_ok w t s -> tensor_wf (value_of w t).
Proof.
  intros (Hs & d & Hd & Hl). unfold tensor_wf, value_of. cbn [data shape].
  rewrite Hd, Hs. exact Hl.
Qed.

Lemma demo_values_wf :
  Forall (fun kt => tensor_wf (value_of demo_world (snd kt)))
         (state_dict demo_model).
Proof.
  pose proof (proj1 (params_ok_shaped demo_world demo_model
                       (proj1 demo_model_ok)) (proj2 demo_model_ok)) as Hs.
  revert Hs. apply Forall2_left. intros kt s. apply param_ok_wf.
Qed.

Lemma reversed_keys k : In k (keys reversed_mapping) -> In k param_names.
Proof.
  intros Hk. change (In k (rev param_names)) in Hk. apply in_rev in Hk.
  exact Hk.
Qed.

Lemma reversed_tensors :
  Forall2 (fun k s => exists v, dict_get k reversed_mapping = Some v
                                /\ shape v = s /\ tensor_wf v)
          param_names param_shapes.
Proof.
  pose proof demo_values_wf as Hwf. unfold state_dict in Hwf.
  unfold param_names, param_shapes.
  repeat (apply Forall_cons in Hwf; destruct Hwf as [Hx Hwf];
          apply List.Forall2_cons;
          [eexists; split; [reflexivity|]; split; [reflexivity|exact Hx]|];
          clear Hx).
  apply List.Forall2_nil.
Qed.

Lemma load_model_mapping_witness :
  exists m w',
    load_model demo_path reversed_world = (Ok m, w')
    /\ model_ok w' m
    /\ Forall2 (fun kt k => fst kt = k
                            /\ dict_get k reversed_mapping
                               = Some (value_of w' (snd kt)))
               (state_dict m) param_names
    /\ entries w' = entries reversed_world
    /\ trace w' = trace reversed_world
                  ++ [EvExists demo_path; EvRead demo_path;
                      EvPrint ("model loaded from " +:+ dquote +:+
                               demo_path +:+ dquote)].
Proof.
  apply (load_model_mapping demo_path reversed_world reversed_mapping).
  - reflexivity.
  - exact reversed_keys.
  - exact reversed_tensors.
Defined.

